(** * collab-todo: the realtime change-notification stream

    A shallow embedding of [todosStream] (the server-sent-event handler of the
    backend) together with the part of the Node.js runtime it runs on: the
    clock, the timer table behind [setTimeout]/[setInterval], the Firestore
    listeners behind [onSnapshot], and the Express response object.

    The handler is written in a small state-and-exception monad so that the
    definitions below read like the TypeScript they are taken from. *)

From stdpp Require Import gmap strings list.
From Stdlib Require Import NArith Lia.

Local Open Scope string_scope.
Local Open Scope list_scope.
Local Open Scope N_scope.

(** Header names are literal strings: keep [simpl] from running the map
    operations on them. *)
#[local] Arguments insert : simpl never.
#[local] Arguments lookup : simpl never.

(** ** Values *)

(** The JSON payloads that the handler builds with object literals. *)
#[local] Set Warnings "-register-all".
Inductive json :=
| JBool (b : bool)
| JNum (n : N)
| JStr (s : string)
| JObj (fields : list (string * json)).

(** One [res.write] call. The three template literals of the source are
    [event: <name>\n], [data: <json>\n\n] and [: keep-alive <ms>\n\n]. *)
Inductive chunk :=
| EventLine (name : string)
| DataLine (payload : json)
| CommentLine (ms : N).

(** What a rejected promise or a [throw] carries. *)
Inductive js_error :=
| FirebaseAuthError (code : string)
| ERR_HTTP_HEADERS_SENT
| TypeError.

(** [req.query.token] as Express parses it: a string, or something that is
    not a string (a repeated parameter gives an array, [token[a]=b] an
    object). *)
Inductive qvalue :=
| QString (s : string)
| QArray (items : list string)
| QObject.

Record Request := {
  query_token : option qvalue;
  cookie_header : option string;
  origin_header : option string
}.

Record DecodedIdToken := { uid : string }.

(** ** The runtime and the response *)

Inductive callback := DebounceFire | KeepAliveTick.

Record timer := {
  t_cb : callback;
  t_due : N;
  t_repeat : option N
}.

Inductive query :=
| OwnerUidEq (u : string)
| AssigneeUidsContains (u : string).

(** [headers] holds the headers that are set by name, through
    [res.setHeader] and the content type [res.json] chooses. The entity
    headers Express computes from the body when it sends it
    ([Content-Length], [ETag]) go with [body] and are not listed. *)
Record Response := {
  statusCode : N;
  headers : gmap string string;
  headersSent : bool;
  body : option json;
  writes : list chunk;
  ended : bool
}.

(** The variables captured by the closures of one [todosStream] call. *)
Record Session := {
  started : bool;
  debounce : option nat;
  keepAlive : option nat;
  unsubOwned : option nat;
  unsubAssigned : option nat;
  onClose : bool
}.

(** [clock] is the clock of the event loop, the one timers are due on; it
    only moves forward. [wall] is the wall clock that [Date.now()] reads; it
    moves with time but can also be stepped, forward or back. *)
Record world := {
  clock : N;
  wall : N;
  next_id : nat;
  timers : gmap nat timer;
  listeners : gmap nat query;
  client_gone : bool;
  res : Response;
  ses : Session
}.

Definition fresh_response : Response :=
  {| statusCode := 200; headers := ∅; headersSent := false; body := None;
     writes := []; ended := false |}.

Definition no_session : Session :=
  {| started := false; debounce := None; keepAlive := None;
     unsubOwned := None; unsubAssigned := None; onClose := false |}.

(** The world in which a request arrives at time [t0] (both clocks are
    counted from the same origin; [Wall] moves them apart). *)
Definition init_world (t0 : N) : world :=
  {| clock := t0; wall := t0; next_id := 0%nat; timers := ∅; listeners := ∅;
     client_gone := false; res := fresh_response; ses := no_session |}.

(** Field updates. *)
Definition with_res (f : Response -> Response) (w : world) : world :=
  {| clock := clock w; wall := wall w; next_id := next_id w;
     timers := timers w;
     listeners := listeners w; client_gone := client_gone w;
     res := f (res w); ses := ses w |}.

Definition with_ses (f : Session -> Session) (w : world) : world :=
  {| clock := clock w; wall := wall w; next_id := next_id w;
     timers := timers w;
     listeners := listeners w; client_gone := client_gone w;
     res := res w; ses := f (ses w) |}.

Definition with_timers (f : gmap nat timer -> gmap nat timer) (w : world) : world :=
  {| clock := clock w; wall := wall w; next_id := next_id w;
     timers := f (timers w);
     listeners := listeners w; client_gone := client_gone w;
     res := res w; ses := ses w |}.

Definition with_listeners (f : gmap nat query -> gmap nat query) (w : world) : world :=
  {| clock := clock w; wall := wall w; next_id := next_id w;
     timers := timers w;
     listeners := f (listeners w); client_gone := client_gone w;
     res := res w; ses := ses w |}.

Definition bump_id (w : world) : world :=
  {| clock := clock w; wall := wall w; next_id := S (next_id w);
     timers := timers w;
     listeners := listeners w; client_gone := client_gone w;
     res := res w; ses := ses w |}.

(** ** The monad: state plus exceptions *)

Inductive outcome (A : Type) :=
| Ok (a : A)
| Throw (e : js_error).
Arguments Ok {A} a.
Arguments Throw {A} e.

Definition M (A : Type) : Type := world -> outcome A * world.

Definition ret {A} (a : A) : M A := fun w => (Ok a, w).

Definition bind {A B} (m : M A) (k : A -> M B) : M B :=
  fun w => match m w with
           | (Ok a, w') => k a w'
           | (Throw e, w') => (Throw e, w')
           end.

Definition throw {A} (e : js_error) : M A := fun w => (Throw e, w).

Definition try_catch {A} (m : M A) (handler : M A) : M A :=
  fun w => match m w with
           | (Ok a, w') => (Ok a, w')
           | (Throw _, w') => handler w'
           end.

(** [await p]: the promise has settled with [p]. *)
Definition await {A} (p : outcome A) : M A := fun w => (p, w).

Definition gets {A} (f : world -> A) : M A := fun w => (Ok (f w), w).
Definition modify (f : world -> world) : M unit := fun w => (Ok tt, f w).

Definition exec {A} (m : M A) (w : world) : world := snd (m w).

Declare Scope js_scope.
Delimit Scope js_scope with js.
Notation "x <- c ;; k" := (bind c (fun x => k))
  (at level 100, c at next level, right associativity) : js_scope.
Notation "c ;; k" := (bind c (fun _ => k))
  (at level 100, right associativity) : js_scope.
Local Open Scope js_scope.

(** JavaScript truthiness of a [string | null]. *)
Definition truthy (o : option string) : bool :=
  match o with
  | Some s => negb (String.eqb s "")
  | None => false
  end.

(** ** Runtime primitives *)

(** [Date.now()]. *)
Definition Date_now : M N := gets wall.

Definition setTimeout (cb : callback) (delay : N) : M nat :=
  fun w =>
    let h := next_id w in
    (Ok h, with_timers (insert h {| t_cb := cb; t_due := clock w + delay;
                                    t_repeat := None |}) (bump_id w)).

Definition setInterval (cb : callback) (period : N) : M nat :=
  fun w =>
    let h := next_id w in
    (Ok h, with_timers (insert h {| t_cb := cb; t_due := clock w + period;
                                    t_repeat := Some period |}) (bump_id w)).

(** Clearing a handle whose timer has fired or was cleared does nothing. *)
Definition clearTimeout (h : nat) : M unit := modify (with_timers (delete h)).
Definition clearInterval (h : nat) : M unit := modify (with_timers (delete h)).

(** [query.onSnapshot(onNext, onError)] registers a listener and returns its
    unsubscribe function, here the listener's id. *)
Definition onSnapshot (q : query) : M nat :=
  fun w =>
    let l := next_id w in
    (Ok l, with_listeners (insert l q) (bump_id w)).

Definition unsubscribe (l : nat) : M unit := modify (with_listeners (delete l)).

(** ** Response primitives *)

Definition set_status (c : N) (r : Response) : Response :=
  {| statusCode := c; headers := headers r; headersSent := headersSent r;
     body := body r; writes := writes r; ended := ended r |}.

Definition set_header (k v : string) (r : Response) : Response :=
  {| statusCode := statusCode r; headers := <[k := v]> (headers r);
     headersSent := headersSent r; body := body r; writes := writes r;
     ended := ended r |}.

Definition flush (r : Response) : Response :=
  {| statusCode := statusCode r; headers := headers r; headersSent := true;
     body := body r; writes := writes r; ended := ended r |}.

Definition push_write (c : chunk) (r : Response) : Response :=
  {| statusCode := statusCode r; headers := headers r;
     headersSent := headersSent r; body := body r;
     writes := (writes r ++ [c])%list; ended := ended r |}.

Definition finish (r : Response) : Response :=
  {| statusCode := statusCode r; headers := headers r; headersSent := true;
     body := body r; writes := writes r; ended := true |}.

Definition put_body (j : json) (r : Response) : Response :=
  {| statusCode := statusCode r; headers := headers r;
     headersSent := headersSent r; body := Some j; writes := writes r;
     ended := ended r |}.

Definition res_status (c : N) : M unit := modify (with_res (set_status c)).

Definition res_setHeader (k v : string) : M unit :=
  sent <- gets (fun w => headersSent (res w)) ;;
  if sent then throw ERR_HTTP_HEADERS_SENT
  else modify (with_res (set_header k v)).

Definition res_flushHeaders : M unit := modify (with_res flush).

(** [res.json(j)]: sets the JSON content type, sends [j] as the whole body
    and ends the response. What Express derives from the body on the way
    out ([Content-Length], [ETag]) is not represented. *)
Definition res_json (j : json) : M unit :=
  res_setHeader "Content-Type" "application/json; charset=utf-8" ;;
  modify (with_res (fun r => finish (put_body j r))).

(** [res.write(c)] returns [false] when the chunk could not be handed to the
    client; every call is recorded in [writes]. *)
Definition res_write (c : chunk) : M bool :=
  fun w => (Ok (negb (client_gone w)), with_res (push_write c) w).

Definition res_end : M unit := modify (with_res finish).

(** ** The closures of [todosStream] *)

Definition set_started (b : bool) (s : Session) : Session :=
  {| started := b; debounce := debounce s; keepAlive := keepAlive s;
     unsubOwned := unsubOwned s; unsubAssigned := unsubAssigned s;
     onClose := onClose s |}.

Definition set_debounce (h : option nat) (s : Session) : Session :=
  {| started := started s; debounce := h; keepAlive := keepAlive s;
     unsubOwned := unsubOwned s; unsubAssigned := unsubAssigned s;
     onClose := onClose s |}.

Definition set_keepAlive (h : option nat) (s : Session) : Session :=
  {| started := started s; debounce := debounce s; keepAlive := h;
     unsubOwned := unsubOwned s; unsubAssigned := unsubAssigned s;
     onClose := onClose s |}.

Definition set_unsubOwned (l : option nat) (s : Session) : Session :=
  {| started := started s; debounce := debounce s; keepAlive := keepAlive s;
     unsubOwned := l; unsubAssigned := unsubAssigned s;
     onClose := onClose s |}.

Definition set_unsubAssigned (l : option nat) (s : Session) : Session :=
  {| started := started s; debounce := debounce s; keepAlive := keepAlive s;
     unsubOwned := unsubOwned s; unsubAssigned := l;
     onClose := onClose s |}.

Definition set_onClose (b : bool) (s : Session) : Session :=
  {| started := started s; debounce := debounce s; keepAlive := keepAlive s;
     unsubOwned := unsubOwned s; unsubAssigned := unsubAssigned s;
     onClose := b |}.

Definition DEBOUNCE_MS : N := 250.
Definition KEEPALIVE_MS : N := 25000.

(** [function send(event, data)]: two writes, results ignored. *)
Definition send (event : string) (data : json) : M unit :=
  res_write (EventLine event) ;;
  res_write (DataLine data) ;;
  ret tt.

(** [function sendComment()]. *)
Definition sendComment : M unit :=
  now <- Date_now ;;
  res_write (CommentLine now) ;;
  ret tt.

Definition todos_changed (at_ms : N) : json := JObj [("at", JNum at_ms)].
Definition ready_payload : json := JObj [("ok", JBool true)].

(** The bodies of the two timer callbacks: the arrow function given to
    [setTimeout] in [scheduleEmit], and the one given to [setInterval]. *)
Definition timer_callback (cb : callback) : M unit :=
  match cb with
  | DebounceFire =>
      now <- Date_now ;;
      send "todos_changed" (todos_changed now)
  | KeepAliveTick =>
      st <- gets (fun w => started (ses w)) ;;
      if negb st then ret tt else sendComment
  end.

(** [function scheduleEmit()]. *)
Definition scheduleEmit : M unit :=
  st <- gets (fun w => started (ses w)) ;;
  if negb st then ret tt else
  d <- gets (fun w => debounce (ses w)) ;;
  match d with Some h => clearTimeout h | None => ret tt end ;;
  h <- setTimeout DebounceFire DEBOUNCE_MS ;;
  modify (with_ses (set_debounce (Some h))).

Inductive watch := Owned | Assigned.
Inductive delivery := Next | Error.

(** The four arrow functions given to [onSnapshot] have the same body. *)
Definition snapshot_callback (s : watch) (d : delivery) : M unit :=
  st <- gets (fun w => started (ses w)) ;;
  if negb st then ret tt else scheduleEmit.

(** The handler registered with [req.on("close", ...)]. *)
Definition on_close : M unit :=
  modify (with_ses (set_started false)) ;;
  d <- gets (fun w => debounce (ses w)) ;;
  match d with Some h => clearTimeout h | None => ret tt end ;;
  k <- gets (fun w => keepAlive (ses w)) ;;
  match k with Some h => clearInterval h | None => ret tt end ;;
  uo <- gets (fun w => unsubOwned (ses w)) ;;
  match uo with Some l => unsubscribe l | None => ret tt end ;;
  ua <- gets (fun w => unsubAssigned (ses w)) ;;
  match ua with Some l => unsubscribe l | None => ret tt end ;;
  res_end.

Definition teardown (w : world) : world := exec on_close w.

(** ** The event loop *)

(** What the environment can do to a session between two turns of the loop:
    let time pass, run an armed timer that is due on the loop clock, deliver
    a snapshot (or a listener error) of one of the two watches, emit [close]
    on the request, break the connection, or step the wall clock. A broken
    connection makes later writes fail and, as Node does on a disconnect,
    emits [close] on the request. A snapshot may arrive for a listener that
    was already unsubscribed (a delivery in flight). *)
Inductive event :=
| Advance (dt : N)
| Fire (h : nat)
| Snapshot (s : watch) (d : delivery)
| Close
| ClientGone
| Wall (now : N).

Definition rearm (h : nat) (t : timer) (w : world) : world :=
  match t_repeat t with
  | None => with_timers (delete h) w
  | Some p =>
      with_timers (insert h {| t_cb := t_cb t; t_due := clock w + p;
                               t_repeat := Some p |}) w
  end.

(** A turn of the loop for timer [h]: its callback runs if the timer is
    armed and due on the loop clock; what [Date.now()] reads inside the
    callback is the wall clock. *)
Definition fire (h : nat) : M unit :=
  fun w =>
    match timers w !! h with
    | Some t =>
        if t_due t <=? clock w then timer_callback (t_cb t) (rearm h t w)
        else (Ok tt, w)
    | None => (Ok tt, w)
    end.

Definition deliver (s : watch) (d : delivery) : M unit :=
  l <- gets (fun w => match s with
                      | Owned => unsubOwned (ses w)
                      | Assigned => unsubAssigned (ses w)
                      end) ;;
  match l with
  | Some _ => snapshot_callback s d
  | None => ret tt
  end.

Definition tick (dt : N) (w : world) : world :=
  {| clock := clock w + dt; wall := wall w + dt; next_id := next_id w;
     timers := timers w;
     listeners := listeners w; client_gone := client_gone w;
     res := res w; ses := ses w |}.

Definition disconnect (w : world) : world :=
  {| clock := clock w; wall := wall w; next_id := next_id w;
     timers := timers w;
     listeners := listeners w; client_gone := true;
     res := res w; ses := ses w |}.

Definition set_wall (now : N) (w : world) : world :=
  {| clock := clock w; wall := now; next_id := next_id w; timers := timers w;
     listeners := listeners w; client_gone := client_gone w;
     res := res w; ses := ses w |}.

(** [close] on the request runs the handler if it is registered by then;
    otherwise the event is lost. *)
Definition emit_close (w : world) : world :=
  if onClose (ses w) then teardown w else w.

Definition handle (e : event) (w : world) : world :=
  match e with
  | Advance dt => tick dt w
  | Fire h => exec (fire h) w
  | Snapshot s d => exec (deliver s d) w
  | Close => emit_close w
  | ClientGone => emit_close (disconnect w)
  | Wall now => set_wall now w
  end.

Definition run (tr : list event) (w : world) : world :=
  fold_left (fun w e => handle e w) tr w.

(** ** Establishment *)

Definition ALLOWED_ORIGIN_WEB : string := "https://collab-todo-66eb2.web.app".
Definition ALLOWED_ORIGIN_FIREBASEAPP : string :=
  "https://collab-todo-66eb2.firebaseapp.com".

Definition origin_allowed (o : option string) : bool :=
  match o with
  | Some s => String.eqb s ALLOWED_ORIGIN_WEB
              || String.eqb s ALLOWED_ORIGIN_FIREBASEAPP
  | None => false
  end.

Definition missing_session : json := JObj [("error", JStr "Missing session")].
Definition invalid_token : json :=
  JObj [("error", JStr "Invalid or expired token")].

(** [typeof req.query.token === "string" ? req.query.token : null]. *)
Definition tokenParam (req : Request) : option string :=
  match query_token req with
  | Some (QString s) => Some s
  | _ => None
  end.

Section Establishment.

(** [readSessionCookie] lives in [../session.js] and the two verifiers in
    [firebase-admin/auth]; the handler only depends on what they return.
    A verifier's result is the settlement of its promise; a throw of
    [getFirebaseAdminApp] or [getAuth] lands in the same [catch] and is
    counted as a rejection. *)
Variable readSessionCookie : Request -> option string.
Variable verifyIdToken : string -> outcome DecodedIdToken.
Variable verifySessionCookie : string -> outcome DecodedIdToken.

(** [tokenParam ? auth.verifyIdToken(tokenParam)
                : auth.verifySessionCookie(sessionCookie as string, true)]. *)
Definition verify (tok cookie : option string) : outcome DecodedIdToken :=
  if truthy tok then verifyIdToken (default "" tok)
  else match cookie with
       | Some c => verifySessionCookie c
       | None => Throw (FirebaseAuthError "auth/argument-error")
       end.

(** The [try] block after the credential has been verified. *)
Definition open_stream (req : Request) (decoded : DecodedIdToken) : M unit :=
  let origin := origin_header req in
  (if origin_allowed origin then
     res_setHeader "Access-Control-Allow-Origin" (default "" origin) ;;
     res_setHeader "Vary" "Origin"
   else ret tt) ;;
  res_status 200 ;;
  res_setHeader "Content-Type" "text/event-stream" ;;
  res_setHeader "Cache-Control" "no-cache, no-transform" ;;
  res_setHeader "Connection" "keep-alive" ;;
  res_setHeader "X-Accel-Buffering" "no" ;;
  res_flushHeaders ;;
  let u := uid decoded in
  modify (with_ses (fun _ => no_session)) ;;
  lo <- onSnapshot (OwnerUidEq u) ;;
  modify (with_ses (set_unsubOwned (Some lo))) ;;
  la <- onSnapshot (AssigneeUidsContains u) ;;
  modify (with_ses (set_unsubAssigned (Some la))) ;;
  modify (with_ses (set_started true)) ;;
  send "ready" ready_payload ;;
  k <- setInterval KeepAliveTick KEEPALIVE_MS ;;
  modify (with_ses (set_keepAlive (Some k))) ;;
  modify (with_ses (set_onClose true)).

Definition todosStream (req : Request) : M unit :=
  let tok := tokenParam req in
  let sessionCookie := readSessionCookie req in
  if negb (truthy tok) && negb (truthy sessionCookie) then
    res_status 401 ;;
    res_json missing_session
  else
    try_catch
      (decoded <- await (verify tok sessionCookie) ;;
       open_stream req decoded)
      (res_status 401 ;;
       res_json invalid_token).

End Establishment.

(** ** Frames

    A frame is what one call of [send] or [sendComment] puts on the wire. *)

Inductive frame :=
| Event (name : string) (data : json)
| Comment (ms : N).

Definition encode (f : frame) : list chunk :=
  match f with
  | Event name data => [EventLine name; DataLine data]
  | Comment ms => [CommentLine ms]
  end.

(** [emits w w' fs]: going from [w] to [w'], the session wrote exactly the
    frames [fs], in this order, after what was already written. *)
Definition emits (w w' : world) (fs : list frame) : Prop :=
  writes (res w') = (writes (res w) ++ concat (encode <$> fs))%list.

Definition is_changed (f : frame) : bool :=
  match f with
  | Event name _ => String.eqb name "todos_changed"
  | Comment _ => false
  end.

(** The frames one turn of the loop writes. *)
Definition output (e : event) (w : world) : list frame :=
  match e with
  | Fire h =>
      match timers w !! h with
      | Some t =>
          if t_due t <=? clock w then
            match t_cb t with
            | DebounceFire => [Event "todos_changed" (todos_changed (wall w))]
            | KeepAliveTick =>
                if started (ses w) then [Comment (wall w)] else []
            end
          else []
      | None => []
      end
  | _ => []
  end.

Fixpoint outputs (tr : list event) (w : world) : list frame :=
  match tr with
  | [] => []
  | e :: tr' => (output e w ++ outputs tr' (handle e w))%list
  end.

(** ** Closed forms of the closures *)

(** [scheduleEmit] on a started session. *)
Definition arm_debounce (w : world) : world :=
  let cleared :=
    match debounce (ses w) with
    | Some h => delete h (timers w)
    | None => timers w
    end in
  {| clock := clock w; wall := wall w; next_id := S (next_id w);
     timers := <[next_id w := {| t_cb := DebounceFire;
                                 t_due := clock w + DEBOUNCE_MS;
                                 t_repeat := None |}]> cleared;
     listeners := listeners w; client_gone := client_gone w; res := res w;
     ses := set_debounce (Some (next_id w)) (ses w) |}.

(** The close handler. *)
Definition torn_down (w : world) : world :=
  let t1 := match debounce (ses w) with
            | Some h => delete h (timers w)
            | None => timers w
            end in
  let t2 := match keepAlive (ses w) with
            | Some h => delete h t1
            | None => t1
            end in
  let l1 := match unsubOwned (ses w) with
            | Some l => delete l (listeners w)
            | None => listeners w
            end in
  let l2 := match unsubAssigned (ses w) with
            | Some l => delete l l1
            | None => l1
            end in
  {| clock := clock w; wall := wall w; next_id := next_id w; timers := t2;
     listeners := l2;
     client_gone := client_gone w; res := finish (res w);
     ses := set_started false (ses w) |}.

(** The response after [res.status(401).json(j)]. *)
Definition rejected (j : json) (w : world) : world :=
  with_res (fun r =>
    finish (put_body j
      (set_header "Content-Type" "application/json; charset=utf-8"
        (set_status 401 r)))) w.

Definition stream_headers (origin : option string)
    (hs : gmap string string) : gmap string string :=
  let cors :=
    if origin_allowed origin
    then <["Vary" := "Origin"]>
           (<["Access-Control-Allow-Origin" := default "" origin]> hs)
    else hs in
  <["X-Accel-Buffering" := "no"]>
    (<["Connection" := "keep-alive"]>
      (<["Cache-Control" := "no-cache, no-transform"]>
        (<["Content-Type" := "text/event-stream"]> cors))).

(** The world after the [try] block has run to its end. *)
Definition opened (req : Request) (decoded : DecodedIdToken) (w : world) : world :=
  let n := next_id w in
  {| clock := clock w;
     wall := wall w;
     next_id := S (S (S n));
     timers := <[S (S n) := {| t_cb := KeepAliveTick;
                               t_due := clock w + KEEPALIVE_MS;
                               t_repeat := Some KEEPALIVE_MS |}]> (timers w);
     listeners := <[S n := AssigneeUidsContains (uid decoded)]>
                    (<[n := OwnerUidEq (uid decoded)]> (listeners w));
     client_gone := client_gone w;
     res := {| statusCode := 200;
               headers := stream_headers (origin_header req) (headers (res w));
               headersSent := true;
               body := body (res w);
               writes := (writes (res w)
                          ++ [EventLine "ready"; DataLine ready_payload])%list;
               ended := ended (res w) |};
     ses := {| started := true; debounce := None; keepAlive := Some (S (S n));
               unsubOwned := Some n; unsubAssigned := Some (S n);
               onClose := true |} |}.

(** ** Invariants of a session *)

(** Every armed debounce timer is the one the [debounce] variable holds,
    every armed keep-alive timer the one [keepAlive] holds, a session that
    is not started has no armed timer, a started session has its two
    listeners, and every registered listener is one of these two. *)
Record Inv (w : world) : Prop := {
  inv_debounce : forall h t,
    timers w !! h = Some t -> t_cb t = DebounceFire -> debounce (ses w) = Some h;
  inv_keepAlive : forall h t,
    timers w !! h = Some t -> t_cb t = KeepAliveTick -> keepAlive (ses w) = Some h;
  inv_stopped : started (ses w) = false -> timers w = ∅;
  inv_listening : started (ses w) = true ->
    is_Some (unsubOwned (ses w)) /\ is_Some (unsubAssigned (ses w));
  inv_listeners : forall l q,
    listeners w !! l = Some q ->
    unsubOwned (ses w) = Some l \/ unsubAssigned (ses w) = Some l
}.

(** The state teardown leaves behind. *)
Definition Quiet (w : world) : Prop :=
  started (ses w) = false /\ timers w = ∅.

(** A debounce timer is pending for a burst whose last delivery was at
    [last]: it is the timer [h], due one window after [last], and the
    window has not elapsed yet. *)
Definition Pending (w : world) (last : N) (h : nat) : Prop :=
  Inv w /\ started (ses w) = true /\ debounce (ses w) = Some h /\
  timers w !! h = Some {| t_cb := DebounceFire; t_due := last + DEBOUNCE_MS;
                          t_repeat := None |} /\
  last <= clock w < last + DEBOUNCE_MS.

(** ** Bursts *)

(** [in_window elapsed tr]: along [tr], which starts [elapsed] ms after a
    delivery, less than one debounce window ever passes since the latest
    delivery, and the request is not closed. *)
Fixpoint in_window (elapsed : N) (tr : list event) : bool :=
  match tr with
  | [] => true
  | Advance dt :: tr' =>
      (elapsed + dt <? DEBOUNCE_MS) && in_window (elapsed + dt) tr'
  | Snapshot _ _ :: tr' => in_window 0 tr'
  | Close :: _ => false
  | ClientGone :: _ => false
  | _ :: tr' => in_window elapsed tr'
  end.

(** The time of the latest delivery of [tr], for a run that starts at [now]
    and whose latest delivery so far was at [last]. *)
Fixpoint last_delivery (now last : N) (tr : list event) : N :=
  match tr with
  | [] => last
  | Advance dt :: tr' => last_delivery (now + dt) last tr'
  | Snapshot _ _ :: tr' => last_delivery now now tr'
  | _ :: tr' => last_delivery now last tr'
  end.

(** ** Sample collaborators and requests *)

Definition sample_readSessionCookie (req : Request) : option string :=
  cookie_header req.

Definition sample_verifyIdToken (tok : string) : outcome DecodedIdToken :=
  if String.eqb tok "id-token-of-alice" then Ok {| uid := "alice" |}
  else Throw (FirebaseAuthError "auth/argument-error").

Definition sample_verifySessionCookie (c : string) : outcome DecodedIdToken :=
  if String.eqb c "cookie-of-bob" then Ok {| uid := "bob" |}
  else Throw (FirebaseAuthError "auth/session-cookie-expired").

Definition sample_todosStream : Request -> M unit :=
  todosStream sample_readSessionCookie sample_verifyIdToken
    sample_verifySessionCookie.

Definition req_alice : Request :=
  {| query_token := Some (QString "id-token-of-alice");
     cookie_header := None;
     origin_header := Some ALLOWED_ORIGIN_WEB |}.

Definition req_anonymous : Request :=
  {| query_token := None; cookie_header := None; origin_header := None |}.

Definition req_bad_token_good_cookie : Request :=
  {| query_token := Some (QString "garbage");
     cookie_header := Some "cookie-of-bob";
     origin_header := None |}.

Definition req_empty_token_good_cookie : Request :=
  {| query_token := Some (QString "");
     cookie_header := Some "cookie-of-bob";
     origin_header := Some "https://example.org" |}.

Definition req_repeated_token_good_cookie : Request :=
  {| query_token := Some (QArray ["id-token-of-alice"; "id-token-of-alice"]);
     cookie_header := Some "cookie-of-bob";
     origin_header := None |}.

(** A cookie verifier that rejects every cookie. *)
Definition reject_cookies (c : string) : outcome DecodedIdToken :=
  Throw (FirebaseAuthError "auth/session-cookie-revoked").

(** The session of alice, opened at time 1000. *)
Definition alice_session : world :=
  exec (sample_todosStream req_alice) (init_world 1000).

(** The whole response of a refused establishment with body [j]. *)
Definition failure_response (j : json) : Response :=
  {| statusCode := 401;
     headers := {["Content-Type" := "application/json; charset=utf-8"]};
     headersSent := true;
     body := Some j;
     writes := [];
     ended := true |}.

(** A burst of three deliveries within 150 ms, then 200 quiet ms. *)
Definition sample_burst : list event :=
  [Advance 100; Snapshot Assigned Error; Advance 50; Snapshot Owned Next;
   Advance 200].

(** ** Further observations on a session *)

(** Handles are handed out once: every handle in use is below [next_id],
    and the debounce handle is not the keep-alive handle. *)
Record Fresh (w : world) : Prop := {
  fresh_timers : forall h t, timers w !! h = Some t -> (h < next_id w)%nat;
  fresh_debounce : forall h, debounce (ses w) = Some h -> (h < next_id w)%nat;
  fresh_keepAlive : forall h, keepAlive (ses w) = Some h -> (h < next_id w)%nat;
  fresh_distinct : forall h k,
    debounce (ses w) = Some h -> keepAlive (ses w) = Some k -> h <> k
}.

(** What is left of a session once its request has closed. *)
Definition Closed (w : world) : Prop :=
  Quiet w /\ listeners w = ∅ /\ ended (res w) = true.

(** The two listeners of a session of user [u], under the ids the handler
    gets for them on a fresh runtime. *)
Definition session_listeners (u : string) : gmap nat query :=
  <[1%nat := AssigneeUidsContains u]> (<[0%nat := OwnerUidEq u]> ∅).

(** The number of [event: todos_changed] lines written so far. *)
Definition is_changed_line (c : chunk) : bool :=
  match c with
  | EventLine name => String.eqb name "todos_changed"
  | _ => false
  end.

Definition changed_lines (w : world) : nat :=
  length (filter is_changed_line (writes (res w))).

Definition is_delivery (e : event) : bool :=
  match e with
  | Snapshot _ _ => true
  | _ => false
  end.

Definition deliveries (tr : list event) : nat :=
  length (filter is_delivery tr).

(** 1 when the timer that [debounce] holds is armed, 0 otherwise. *)
Definition debounce_pending (w : world) : nat :=
  match debounce (ses w) with
  | Some h =>
      match timers w !! h with
      | Some {| t_cb := DebounceFire |} => 1
      | _ => 0
      end
  | None => 0
  end.

(** The frames of a stream after [ready]: [todos_changed] with a numeric
    [at], and keep-alive comments. *)
Definition is_stream_frame (f : frame) : bool :=
  match f with
  | Event name (JObj [(k, JNum _)]) =>
      String.eqb name "todos_changed" && String.eqb k "at"
  | Comment _ => true
  | _ => false
  end.

(** Debounce timers are one-shot. *)
Definition OneShot (w : world) : Prop :=
  forall h t,
    timers w !! h = Some t -> t_cb t = DebounceFire -> t_repeat t = None.

(** While the session is started its keep-alive timer is armed, repeats
    with the keep-alive period and is due within one period from now. *)
Definition KeepAliveArmed (w : world) : Prop :=
  started (ses w) = true ->
  exists k due,
    keepAlive (ses w) = Some k
    /\ timers w !! k = Some {| t_cb := KeepAliveTick; t_due := due;
                               t_repeat := Some KEEPALIVE_MS |}
    /\ due <= clock w + KEEPALIVE_MS.

(** A session of user [u] is either live, with its two listeners, or
    closed. *)
Definition LiveOrClosed (u : string) (w : world) : Prop :=
  (started (ses w) = true /\ listeners w = session_listeners u)
  \/ Closed w.

(** Every armed debounce timer is one-shot and due within one debounce
    window from now. *)
Definition DebounceSoon (w : world) : Prop :=
  forall h t,
    timers w !! h = Some t -> t_cb t = DebounceFire ->
    t_repeat t = None /\ t_due t <= clock w + DEBOUNCE_MS.

Definition req_cookie_of_bob : Request :=
  {| query_token := None;
     cookie_header := Some "cookie-of-bob";
     origin_header := Some ALLOWED_ORIGIN_FIREBASEAPP |}.

Definition req_empty_credentials : Request :=
  {| query_token := Some (QString "");
     cookie_header := Some "";
     origin_header := None |}.

(** * Properties *)

(** ** The closures in closed form *)

Lemma send_run ev d w :
  send ev d w =
  (Ok tt, with_res (fun r => push_write (DataLine d) (push_write (EventLine ev) r)) w).
Proof. reflexivity. Qed.

Lemma sendComment_run w :
  sendComment w = (Ok tt, with_res (push_write (CommentLine (wall w))) w).
Proof. reflexivity. Qed.

Lemma timer_callback_debounce w :
  timer_callback DebounceFire w =
  (Ok tt, with_res (fun r => push_write (DataLine (todos_changed (wall w)))
                               (push_write (EventLine "todos_changed") r)) w).
Proof. reflexivity. Qed.

Lemma timer_callback_keepAlive w :
  timer_callback KeepAliveTick w =
  if started (ses w)
  then (Ok tt, with_res (push_write (CommentLine (wall w))) w)
  else (Ok tt, w).
Proof.
  unfold timer_callback, bind, gets. simpl. by destruct (started (ses w)).
Qed.

Lemma scheduleEmit_run w :
  scheduleEmit w =
  if started (ses w) then (Ok tt, arm_debounce w) else (Ok tt, w).
Proof.
  unfold scheduleEmit, clearTimeout, setTimeout, bind, gets, modify, ret.
  simpl. destruct (started (ses w)); [|done]. simpl.
  unfold arm_debounce. by destruct (debounce (ses w)).
Qed.

Lemma snapshot_callback_run s d w :
  snapshot_callback s d w =
  if started (ses w) then (Ok tt, arm_debounce w) else (Ok tt, w).
Proof.
  unfold snapshot_callback, bind, gets. simpl.
  destruct (started (ses w)) eqn:E; [|done]. simpl.
  by rewrite scheduleEmit_run, E.
Qed.

Lemma on_close_run w : on_close w = (Ok tt, torn_down w).
Proof.
  unfold torn_down, on_close, bind, gets, modify. cbn.
  destruct (debounce (ses w)); cbn; destruct (keepAlive (ses w)); cbn;
    destruct (unsubOwned (ses w)); cbn; destruct (unsubAssigned (ses w));
    reflexivity.
Qed.

Lemma teardown_eq w : teardown w = torn_down w.
Proof. unfold teardown, exec. by rewrite on_close_run. Qed.

Lemma emit_close_run w :
  emit_close w = if onClose (ses w) then torn_down w else w.
Proof. unfold emit_close. by rewrite teardown_eq. Qed.

Lemma fire_run h w :
  exec (fire h) w =
  match timers w !! h with
  | Some t =>
      if t_due t <=? clock w
      then match t_cb t with
           | DebounceFire =>
               with_res (fun r => push_write (DataLine (todos_changed (wall w)))
                                    (push_write (EventLine "todos_changed") r))
                        (rearm h t w)
           | KeepAliveTick =>
               if started (ses w)
               then with_res (push_write (CommentLine (wall w))) (rearm h t w)
               else rearm h t w
           end
      else w
  | None => w
  end.
Proof.
  unfold exec, fire. destruct (timers w !! h) as [t|]; [|done].
  destruct (t_due t <=? clock w); [|done].
  destruct (t_cb t).
  - rewrite timer_callback_debounce. simpl.
    unfold rearm. by destruct (t_repeat t).
  - rewrite timer_callback_keepAlive.
    unfold rearm. destruct (t_repeat t); simpl; by destruct (started (ses w)).
Qed.

Lemma deliver_run s d w :
  exec (deliver s d) w =
  match (match s with
         | Owned => unsubOwned (ses w)
         | Assigned => unsubAssigned (ses w)
         end) with
  | Some _ => if started (ses w) then arm_debounce w else w
  | None => w
  end.
Proof.
  unfold exec, deliver, bind, gets. simpl.
  destruct s; simpl.
  - destruct (unsubOwned (ses w)); [|done].
    rewrite snapshot_callback_run. by destruct (started (ses w)).
  - destruct (unsubAssigned (ses w)); [|done].
    rewrite snapshot_callback_run. by destruct (started (ses w)).
Qed.

(** Case analysis on what a timer turn, or a delivery, does. *)
Ltac fire_cases h w :=
  rewrite fire_run;
  destruct (timers w !! h) as [?t|]; [|done];
  match goal with
  | |- context [t_due ?t <=? clock w] =>
      destruct (t_due t <=? clock w); [|done];
      destruct (t_cb t); [|destruct (started (ses w))]; simpl
  end.

Ltac deliver_cases s w :=
  rewrite deliver_run;
  destruct (match s with Owned => _ | Assigned => _ end);
    [destruct (started (ses w)) eqn:?|].

Lemma rearm_ses h t w : ses (rearm h t w) = ses w.
Proof. unfold rearm. by destruct (t_repeat t). Qed.

Lemma rearm_res h t w : res (rearm h t w) = res w.
Proof. unfold rearm. by destruct (t_repeat t). Qed.

Lemma rearm_listeners h t w : listeners (rearm h t w) = listeners w.
Proof. unfold rearm. by destruct (t_repeat t). Qed.

Lemma rearm_clock h t w : clock (rearm h t w) = clock w.
Proof. unfold rearm. by destruct (t_repeat t). Qed.

Lemma rearm_other h t w h' :
  h <> h' -> timers (rearm h t w) !! h' = timers w !! h'.
Proof.
  intros Hne. unfold rearm. destruct (t_repeat t); simpl.
  - by rewrite lookup_insert_ne.
  - by rewrite lookup_delete_ne.
Qed.

Lemma run_app tr1 tr2 w : run (tr1 ++ tr2) w = run tr2 (run tr1 w).
Proof. apply fold_left_app. Qed.

(** ** What is written *)

Lemma emits_refl w : emits w w [].
Proof. unfold emits. simpl. by rewrite app_nil_r. Qed.

Lemma emits_trans w1 w2 w3 fs gs :
  emits w1 w2 fs -> emits w2 w3 gs -> emits w1 w3 (fs ++ gs).
Proof.
  unfold emits. intros H1 H2.
  by rewrite H2, H1, fmap_app, concat_app, app_assoc.
Qed.

Lemma handle_emits e w : emits w (handle e w) (output e w).
Proof.
  unfold emits. destruct e as [dt|h|s d| | |now]; simpl.
  - by rewrite app_nil_r.
  - rewrite fire_run. destruct (timers w !! h) as [t|]; [|by rewrite app_nil_r].
    destruct (t_due t <=? clock w); [|by rewrite app_nil_r].
    destruct (t_cb t); simpl.
    + rewrite rearm_res. by rewrite <- app_assoc.
    + destruct (started (ses w)); simpl; rewrite rearm_res; [done|].
      by rewrite app_nil_r.
  - rewrite deliver_run.
    destruct (match s with Owned => _ | Assigned => _ end);
      [destruct (started (ses w))|]; by rewrite app_nil_r.
  - rewrite emit_close_run. destruct (onClose (ses w)); simpl;
      by rewrite app_nil_r.
  - rewrite emit_close_run. simpl. destruct (onClose (ses w)); simpl;
      by rewrite app_nil_r.
  - by rewrite app_nil_r.
Qed.

Lemma run_emits tr w : emits w (run tr w) (outputs tr w).
Proof.
  revert w. induction tr as [|e tr IH]; intros w; simpl.
  - apply emits_refl.
  - eapply emits_trans; [apply handle_emits | apply IH].
Qed.

(** The response headers, status and body are settled by establishment. *)
Lemma handle_headers e w : headers (res (handle e w)) = headers (res w).
Proof.
  destruct e as [dt|h|s d| | |now]; simpl; try done.
  - fire_cases h w; by rewrite rearm_res.
  - deliver_cases s w; done.
  - rewrite emit_close_run. by destruct (onClose (ses w)).
  - rewrite emit_close_run. simpl. by destruct (onClose (ses w)).
Qed.

Lemma run_headers tr w : headers (res (run tr w)) = headers (res w).
Proof.
  revert w. induction tr as [|e tr IH]; intros w; [done|].
  simpl. by rewrite IH, handle_headers.
Qed.

(** ** The invariant holds along every execution *)

Lemma Inv_rearm h t w :
  timers w !! h = Some t -> Inv w -> Inv (rearm h t w).
Proof.
  intros Hh [Hd Hk Hs Hl Hq].
  assert (Hst : started (ses w) = true).
  { destruct (started (ses w)) eqn:E; [done|].
    rewrite (Hs eq_refl) in Hh. by rewrite lookup_empty in Hh. }
  split; rewrite ?rearm_ses, ?rearm_listeners; try done; try congruence.
  - intros h' t' Hl' Hcb. destruct (decide (h = h')) as [<-|Hne].
    + eapply Hd; [done|]. unfold rearm in Hl'.
      destruct (t_repeat t); simpl in Hl'.
      * rewrite lookup_insert_eq in Hl'. by inversion Hl'; subst.
      * by rewrite lookup_delete_eq in Hl'.
    + rewrite rearm_other in Hl' by done. eauto.
  - intros h' t' Hl' Hcb. destruct (decide (h = h')) as [<-|Hne].
    + eapply Hk; [done|]. unfold rearm in Hl'.
      destruct (t_repeat t); simpl in Hl'.
      * rewrite lookup_insert_eq in Hl'. by inversion Hl'; subst.
      * by rewrite lookup_delete_eq in Hl'.
    + rewrite rearm_other in Hl' by done. eauto.
Qed.

Lemma Inv_with_res f w : Inv w -> Inv (with_res f w).
Proof. intros [Hd Hk Hs Hl Hq]. by split. Qed.

Lemma Inv_arm_debounce w :
  started (ses w) = true -> Inv w -> Inv (arm_debounce w).
Proof.
  intros Hst [Hd Hk Hs Hl Hq]. split; simpl; try done; try congruence.
  - intros h t Hl' Hcb.
    destruct (decide (next_id w = h)) as [->|Hne]; [done|].
    rewrite lookup_insert_ne in Hl' by done.
    destruct (debounce (ses w)) as [h0|] eqn:E.
    + apply lookup_delete_Some in Hl' as [Hne' Hl'].
      specialize (Hd _ _ Hl' Hcb). congruence.
    + specialize (Hd _ _ Hl' Hcb). congruence.
  - intros h t Hl' Hcb.
    destruct (decide (next_id w = h)) as [Heq|Hne].
    + rewrite <- Heq, lookup_insert_eq in Hl'. inversion Hl'; subst. done.
    + rewrite lookup_insert_ne in Hl' by done.
      destruct (debounce (ses w)) as [h0|].
      * apply lookup_delete_Some in Hl' as [_ Hl']. eauto.
      * eauto.
Qed.

Lemma torn_down_timers w : Inv w -> timers (torn_down w) = ∅.
Proof.
  intros [Hd Hk Hs _ _]. apply map_empty. intros h. simpl.
  destruct (timers w !! h) as [t|] eqn:Hl.
  - destruct (t_cb t) eqn:Hcb.
    + rewrite (Hd _ _ Hl Hcb).
      destruct (keepAlive (ses w)) as [k|].
      * destruct (decide (k = h)) as [->|?];
          [apply lookup_delete_eq | rewrite lookup_delete_ne by done;
                                    apply lookup_delete_eq].
      * apply lookup_delete_eq.
    + rewrite (Hk _ _ Hl Hcb). apply lookup_delete_eq.
  - destruct (debounce (ses w)) as [d|], (keepAlive (ses w)) as [k|];
      rewrite ?lookup_delete_None; auto.
Qed.

Lemma torn_down_listeners w : Inv w -> listeners (torn_down w) = ∅.
Proof.
  intros [_ _ _ _ Hq]. apply map_empty. intros l. simpl.
  destruct (listeners w !! l) as [q|] eqn:Hl.
  - destruct (Hq _ _ Hl) as [E|E]; rewrite E.
    + destruct (unsubAssigned (ses w)) as [a|].
      * destruct (decide (a = l)) as [->|?];
          [apply lookup_delete_eq | rewrite lookup_delete_ne by done;
                                    apply lookup_delete_eq].
      * apply lookup_delete_eq.
    + destruct (unsubOwned (ses w)) as [o|]; apply lookup_delete_eq.
  - destruct (unsubOwned (ses w)) as [o|], (unsubAssigned (ses w)) as [a|];
      rewrite ?lookup_delete_None; auto.
Qed.

Lemma Quiet_torn_down w : Inv w -> Quiet (torn_down w).
Proof. intros H. split; [done | by apply torn_down_timers]. Qed.

Lemma Inv_torn_down w : Inv w -> Inv (torn_down w).
Proof.
  intros HI. pose proof (torn_down_timers w HI) as Ht.
  pose proof (torn_down_listeners w HI) as Hl.
  split; try done; intros ? ?; rewrite ?Ht, ?Hl, lookup_empty; done.
Qed.

Lemma Inv_handle e w : Inv w -> Inv (handle e w).
Proof.
  intros HI. destruct e as [dt|h|s d| | |now]; simpl.
  - destruct HI as [Hd Hk Hs Hl Hq]. by split.
  - rewrite fire_run.
    destruct (timers w !! h) as [t|] eqn:Hl; [|done].
    destruct (t_due t <=? clock w); [|done].
    destruct (t_cb t); [|destruct (started (ses w))];
      try apply Inv_with_res; by apply Inv_rearm.
  - rewrite deliver_run.
    destruct (match s with Owned => _ | Assigned => _ end); [|done].
    destruct (started (ses w)) eqn:E; [|done].
    by apply Inv_arm_debounce.
  - rewrite emit_close_run. destruct (onClose (ses w)); [|done].
    by apply Inv_torn_down.
  - assert (Inv (disconnect w)) as HI'
      by (destruct HI as [Hd Hk Hs Hl Hq]; by split).
    rewrite emit_close_run. simpl. destruct (onClose (ses w)); [|done].
    by apply Inv_torn_down.
  - destruct HI as [Hd Hk Hs Hl Hq]. by split.
Qed.

Lemma Inv_run tr w : Inv w -> Inv (run tr w).
Proof.
  revert w. induction tr as [|e tr IH]; intros w HI; [done|].
  simpl. apply IH. by apply Inv_handle.
Qed.

(** ** After teardown nothing moves *)

Lemma Quiet_handle e w :
  Quiet w -> Quiet (handle e w) /\ writes (res (handle e w)) = writes (res w).
Proof.
  intros [Hst Ht]. destruct e as [dt|h|s d| | |now]; simpl.
  - done.
  - rewrite fire_run, Ht, lookup_empty. done.
  - rewrite deliver_run, Hst.
    by destruct (match s with Owned => _ | Assigned => _ end).
  - rewrite emit_close_run. destruct (onClose (ses w)); [|done].
    split; [|done]. split; [done|]. simpl. rewrite Ht.
    destruct (debounce (ses w)), (keepAlive (ses w));
      by rewrite ?delete_empty.
  - rewrite emit_close_run. simpl. destruct (onClose (ses w)); [|done].
    split; [|done]. split; [done|]. simpl. rewrite Ht.
    destruct (debounce (ses w)), (keepAlive (ses w));
      by rewrite ?delete_empty.
  - done.
Qed.

Lemma Quiet_run tr w :
  Quiet w -> Quiet (run tr w) /\ writes (res (run tr w)) = writes (res w).
Proof.
  revert w. induction tr as [|e tr IH]; intros w HQ; [done|].
  simpl. destruct (Quiet_handle e w HQ) as [HQ' Hw].
  destruct (IH _ HQ') as [HQ'' Hw']. split; [done | congruence].
Qed.

(** ** What establishment leaves behind *)

Lemma rejected_run j w :
  headersSent (res w) = false ->
  (res_status 401 ;; res_json j) w = (Ok tt, rejected j w).
Proof.
  intros H. unfold res_status, res_json, res_setHeader, bind, gets, modify.
  simpl. by rewrite H.
Qed.

Lemma Inv_rejected j w : Inv w -> Inv (rejected j w).
Proof. apply Inv_with_res. Qed.

Lemma Inv_init t0 : Inv (init_world t0).
Proof.
  split; simpl; try done; intros ? ?; by rewrite lookup_empty.
Qed.

Lemma Quiet_rejected j t0 : Quiet (rejected j (init_world t0)).
Proof. done. Qed.

Lemma Inv_opened req decoded w :
  timers w = ∅ -> listeners w = ∅ -> Inv (opened req decoded w).
Proof.
  intros Ht Hl. split; simpl; rewrite ?Ht, ?Hl; try done.
  - intros h t Hl' Hcb. apply lookup_insert_Some in Hl' as [[_ <-]|[_ Hl']];
      [done | by rewrite lookup_empty in Hl'].
  - intros h t Hl' Hcb. apply lookup_insert_Some in Hl' as [[<- _]|[_ Hl']];
      [done | by rewrite lookup_empty in Hl'].
  - intros l q Hl'.
    apply lookup_insert_Some in Hl' as [[<- _]|[_ Hl']]; [by right|].
    apply lookup_insert_Some in Hl' as [[<- _]|[_ Hl']]; [by left|].
    by rewrite lookup_empty in Hl'.
Qed.

Section EstablishmentFacts.

Variable readSessionCookie : Request -> option string.
Variable verifyIdToken : string -> outcome DecodedIdToken.
Variable verifySessionCookie : string -> outcome DecodedIdToken.

Abbreviation verify_ := (verify verifyIdToken verifySessionCookie).
Abbreviation todosStream_ :=
  (todosStream readSessionCookie verifyIdToken verifySessionCookie).

Lemma open_stream_run req decoded w :
  headersSent (res w) = false ->
  open_stream req decoded w = (Ok tt, opened req decoded w).
Proof.
  intros H. destruct w as [c wl n t l g [st hs sent b ws en] s].
  simpl in H. subst sent.
  unfold open_stream, opened, stream_headers.
  destruct (origin_allowed (origin_header req));
    cbv [bind gets modify ret throw res_setHeader res_status
         res_flushHeaders onSnapshot setInterval send res_write
         with_ses with_res with_timers with_listeners bump_id
         push_write flush set_header set_status set_started set_keepAlive
         set_unsubOwned set_unsubAssigned set_onClose no_session
         clock next_id timers listeners client_gone res ses
         statusCode headers headersSent body writes ended
         started debounce keepAlive unsubOwned unsubAssigned onClose];
    rewrite <- app_assoc; reflexivity.
Qed.

(** The three ways [todosStream] can end. *)
Lemma todosStream_missing req w :
  headersSent (res w) = false ->
  truthy (tokenParam req) = false ->
  truthy (readSessionCookie req) = false ->
  todosStream_ req w = (Ok tt, rejected missing_session w).
Proof.
  intros H Ht Hc. unfold todosStream. rewrite Ht, Hc. simpl.
  by apply rejected_run.
Qed.

Lemma todosStream_invalid req w e :
  headersSent (res w) = false ->
  truthy (tokenParam req) || truthy (readSessionCookie req) = true ->
  verify_ (tokenParam req) (readSessionCookie req) = Throw e ->
  todosStream_ req w = (Ok tt, rejected invalid_token w).
Proof.
  intros H Hc Hv. unfold todosStream.
  destruct (truthy (tokenParam req)), (truthy (readSessionCookie req));
    try discriminate; simpl;
    unfold try_catch, bind, await; rewrite Hv; by apply rejected_run.
Qed.

Lemma todosStream_opened req w decoded :
  headersSent (res w) = false ->
  truthy (tokenParam req) || truthy (readSessionCookie req) = true ->
  verify_ (tokenParam req) (readSessionCookie req) = Ok decoded ->
  todosStream_ req w = (Ok tt, opened req decoded w).
Proof.
  intros H Hc Hv. unfold todosStream.
  destruct (truthy (tokenParam req)), (truthy (readSessionCookie req));
    try discriminate; simpl;
    unfold try_catch, bind, await; rewrite Hv;
    by rewrite open_stream_run.
Qed.

Lemma todosStream_cases req w :
  headersSent (res w) = false ->
  exec (todosStream_ req) w = rejected missing_session w
  \/ exec (todosStream_ req) w = rejected invalid_token w
  \/ exists decoded, exec (todosStream_ req) w = opened req decoded w.
Proof.
  intros H. unfold exec.
  destruct (truthy (tokenParam req) || truthy (readSessionCookie req)) eqn:Hc.
  - destruct (verify_ (tokenParam req) (readSessionCookie req)) as [d|e] eqn:Hv.
    + right; right. exists d. by rewrite (todosStream_opened _ _ d).
    + right; left. by rewrite (todosStream_invalid _ _ e).
  - apply orb_false_iff in Hc as [Ht Hk].
    left. by rewrite todosStream_missing.
Qed.

(** Every world a session can be in satisfies the invariant. *)
Lemma Inv_session req t0 tr :
  Inv (run tr (exec (todosStream_ req) (init_world t0))).
Proof.
  apply Inv_run.
  destruct (todosStream_cases req (init_world t0) eq_refl)
    as [-> | [-> | [d ->]]].
  - apply Inv_rejected, Inv_init.
  - apply Inv_rejected, Inv_init.
  - by apply Inv_opened.
Qed.

End EstablishmentFacts.

(** ** Teardown, once and twice *)

Lemma delete_absorb {A} (m : gmap nat A) i j :
  delete j (delete i (delete j m)) = delete i (delete j m).
Proof. by rewrite (delete_delete _ j i), delete_delete_eq. Qed.

Lemma torn_down_idem w : torn_down (torn_down w) = torn_down w.
Proof.
  destruct w as [c wl n t l g r [st d k o a oc]]. unfold torn_down. simpl.
  f_equal.
  - destruct d as [d|], k as [k|];
      by rewrite ?delete_absorb, ?delete_delete_eq.
  - destruct o as [o|], a as [a|];
      by rewrite ?delete_absorb, ?delete_delete_eq.
Qed.

Lemma handle_Close_twice w :
  handle Close (handle Close w) = handle Close w.
Proof.
  simpl. rewrite (emit_close_run w).
  destruct (onClose (ses w)) eqn:E; rewrite emit_close_run; [|by rewrite E].
  simpl. rewrite E. apply torn_down_idem.
Qed.

(** ** One session, from establishment to close *)

Section Session.

Variable readSessionCookie : Request -> option string.
Variable verifyIdToken : string -> outcome DecodedIdToken.
Variable verifySessionCookie : string -> outcome DecodedIdToken.

Abbreviation verify_ := (verify verifyIdToken verifySessionCookie).
Abbreviation todosStream_ :=
  (todosStream readSessionCookie verifyIdToken verifySessionCookie).

(** C1. Post-close silence: take any request, any execution [tr1] of its
    session, run teardown, then let anything at all happen ([tr2]: timers
    that were pending, snapshots in flight, ticks of the clock). The list
    of writes to the transport is what it was before teardown ran. *)
Theorem post_close_silence req t0 tr1 tr2 :
  let w := run tr1 (exec (todosStream_ req) (init_world t0)) in
  writes (res (run tr2 (teardown w))) = writes (res w).
Proof.
  intros w. rewrite teardown_eq.
  assert (HQ : Quiet (torn_down w)).
  { apply Quiet_torn_down, Inv_session. }
  destruct (Quiet_run tr2 _ HQ) as [_ ->]. done.
Qed.

(** C4. Ordering: when the handler leaves the session started, whatever
    happens next, the transport has received the [ready] frame first and
    every other frame after it. *)
Theorem ready_is_first req t0 tr :
  let w0 := exec (todosStream_ req) (init_world t0) in
  started (ses w0) = true ->
  exists fs,
    writes (res (run tr w0))
    = (encode (Event "ready" ready_payload) ++ concat (encode <$> fs))%list.
Proof.
  intros w0 Hst. exists (outputs tr w0).
  pose proof (run_emits tr w0) as He. unfold emits in He. rewrite He.
  f_equal. subst w0.
  destruct (todosStream_cases readSessionCookie verifyIdToken
              verifySessionCookie req (init_world t0) eq_refl)
    as [E | [E | [d E]]]; rewrite E in *; try discriminate. done.
Qed.

(** C5. Auth gating: a request without token parameter and without session
    cookie, or one whose credential the verifier rejects, is answered with
    status 401 and one JSON body [{error: msg}]; the only header set by
    name is the JSON content type (none of the stream headers), and no chunk
    is ever written to the stream. *)
Theorem unauthenticated_is_rejected req t0 :
  (query_token req = None /\ readSessionCookie req = None)
  \/ (exists e, verify_ (tokenParam req) (readSessionCookie req) = Throw e) ->
  let w := exec (todosStream_ req) (init_world t0) in
  statusCode (res w) = 401
  /\ (exists msg, body (res w) = Some (JObj [("error", JStr msg)]))
  /\ ended (res w) = true
  /\ started (ses w) = false
  /\ forall tr,
       headers (res (run tr w))
       = {["Content-Type" := "application/json; charset=utf-8"]}
       /\ writes (res (run tr w)) = [].
Proof.
  intros H w.
  assert (exists j msg, w = rejected j (init_world t0)
                        /\ j = JObj [("error", JStr msg)])
    as (j & msg & Hw & Hj).
  { subst w. unfold exec. destruct H as [[Hq Hc] | [e He]].
    - exists missing_session, "Missing session". split; [|done].
      rewrite todosStream_missing; try done.
      + unfold tokenParam. by rewrite Hq.
      + by rewrite Hc.
    - destruct (truthy (tokenParam req) || truthy (readSessionCookie req))
        eqn:Hc.
      + exists invalid_token, "Invalid or expired token". split; [|done].
        by rewrite (todosStream_invalid _ _ _ _ _ e).
      + apply orb_false_iff in Hc as [Ht Hk].
        exists missing_session, "Missing session". split; [|done].
        by rewrite todosStream_missing. }
  rewrite Hw. repeat split; try done.
  - exists msg. simpl. by rewrite Hj.
  - rewrite run_headers. simpl. apply insert_empty.
  - by destruct (Quiet_run tr _ (Quiet_rejected j t0)) as [_ ->].
Qed.

(** C7. Idempotent teardown: in any state of any session, running the close
    handler a second time returns normally and changes nothing; after one
    run as after two the session is stopped, no timer is armed, no listener
    is registered and the response is ended. The same holds for two [close]
    events. *)
Theorem teardown_idempotent req t0 tr :
  let w := run tr (exec (todosStream_ req) (init_world t0)) in
  teardown (teardown w) = teardown w
  /\ on_close (teardown w) = (Ok tt, teardown w)
  /\ handle Close (handle Close w) = handle Close w
  /\ started (ses (teardown w)) = false
  /\ timers (teardown w) = ∅
  /\ listeners (teardown w) = ∅
  /\ ended (res (teardown w)) = true.
Proof.
  intros w. pose proof (Inv_session readSessionCookie verifyIdToken
                          verifySessionCookie req t0 tr) as HI.
  fold w in HI. rewrite on_close_run, !teardown_eq, !torn_down_idem.
  repeat split.
  - apply handle_Close_twice.
  - by apply torn_down_timers.
  - by apply torn_down_listeners.
Qed.

(** C9. Origin echo: once the credential is verified, an [Origin] header
    equal to one of the two allow-listed origins is echoed, as it is, in
    [Access-Control-Allow-Origin] together with [Vary: Origin]; without
    [Origin] header, or with an origin that is not listed, the response has
    neither header. This stays so for the whole life of the stream. *)
Theorem origin_echo req t0 decoded tr :
  truthy (tokenParam req) || truthy (readSessionCookie req) = true ->
  verify_ (tokenParam req) (readSessionCookie req) = Ok decoded ->
  let hs :=
    headers (res (run tr (exec (todosStream_ req) (init_world t0)))) in
  (forall o,
      origin_header req = Some o ->
      o = ALLOWED_ORIGIN_WEB \/ o = ALLOWED_ORIGIN_FIREBASEAPP ->
      hs !! "Access-Control-Allow-Origin" = Some o
      /\ o <> "*"
      /\ hs !! "Vary" = Some "Origin")
  /\ (origin_header req = None
      \/ (exists o, origin_header req = Some o
                    /\ o <> ALLOWED_ORIGIN_WEB
                    /\ o <> ALLOWED_ORIGIN_FIREBASEAPP) ->
      hs !! "Access-Control-Allow-Origin" = None /\ hs !! "Vary" = None).
Proof.
  intros Hc Hv hs. subst hs. rewrite run_headers. unfold exec.
  rewrite (todosStream_opened _ _ _ _ _ decoded) by done. cbn [snd].
  change (headers (res (opened req decoded (init_world t0))))
    with (stream_headers (origin_header req) ∅).
  unfold stream_headers. split.
  - intros o Ho Hallowed.
    assert (origin_allowed (origin_header req) = true) as ->.
    { rewrite Ho. simpl. destruct Hallowed as [-> | ->]; done. }
    rewrite Ho. simpl. split; [|split].
    + repeat (rewrite lookup_insert_ne by done). apply lookup_insert_eq.
    + by destruct Hallowed as [-> | ->].
    + repeat (rewrite lookup_insert_ne by done). apply lookup_insert_eq.
  - intros Hno.
    assert (origin_allowed (origin_header req) = false) as ->.
    { destruct Hno as [-> | (o & -> & H1 & H2)]; [done|]. simpl.
      apply orb_false_iff. split; by apply String.eqb_neq. }
    split; repeat (rewrite lookup_insert_ne by done); apply lookup_empty.
Qed.

(** C10, as the code has it. Token before cookie: when the token parameter
    of the request is a single non-empty string, the handler's outcome is
    decided by [verifyIdToken] on that token alone, whatever cookie the
    request carries and whatever the cookie verifier would say about it; a
    rejected token gives the 401 answer even next to a cookie that would
    verify. (A token parameter that is empty or repeated counts as absent,
    see [tokenParam] and [truthy].) *)
Theorem token_takes_precedence req tok t0 :
  query_token req = Some (QString tok) ->
  tok <> "" ->
  let w := init_world t0 in
  verify_ (tokenParam req) (readSessionCookie req) = verifyIdToken tok
  /\ exec (todosStream_ req) w
     = match verifyIdToken tok with
       | Ok decoded => opened req decoded w
       | Throw _ => rejected invalid_token w
       end
  /\ (forall e c decoded,
        verifyIdToken tok = Throw e ->
        readSessionCookie req = Some c ->
        verifySessionCookie c = Ok decoded ->
        exec (todosStream_ req) w = rejected invalid_token w).
Proof.
  intros Hq Hne w.
  assert (Ht : tokenParam req = Some tok) by (unfold tokenParam; by rewrite Hq).
  assert (Htr : truthy (tokenParam req) = true).
  { rewrite Ht. simpl. apply negb_true_iff. by apply String.eqb_neq. }
  assert (Hv : verify_ (tokenParam req) (readSessionCookie req)
               = verifyIdToken tok).
  { unfold verify. rewrite Htr. by rewrite Ht. }
  assert (Hex : exec (todosStream_ req) w
                = match verifyIdToken tok with
                  | Ok decoded => opened req decoded w
                  | Throw _ => rejected invalid_token w
                  end).
  { unfold exec. destruct (verifyIdToken tok) as [d|e] eqn:E.
    - rewrite (todosStream_opened _ _ _ _ _ d); try done. by rewrite Htr.
    - rewrite (todosStream_invalid _ _ _ _ _ e); try done. by rewrite Htr. }
  repeat split; try done.
  intros e c d He _ _. by rewrite Hex, He.
Qed.

End Session.

(** ** Debounce *)

Lemma Pending_intro w last h :
  Inv w -> started (ses w) = true -> debounce (ses w) = Some h ->
  timers w !! h = Some {| t_cb := DebounceFire; t_due := last + DEBOUNCE_MS;
                          t_repeat := None |} ->
  last <= clock w -> clock w < last + DEBOUNCE_MS ->
  Pending w last h.
Proof. unfold Pending. tauto. Qed.

Lemma Pending_arm w :
  Inv w -> started (ses w) = true ->
  Pending (arm_debounce w) (clock w) (next_id w).
Proof.
  intros HI Hst. apply Pending_intro.
  - by apply Inv_arm_debounce.
  - done.
  - done.
  - simpl. apply lookup_insert_eq.
  - simpl. lia.
  - simpl. unfold DEBOUNCE_MS. lia.
Qed.

Lemma fire_ses h w : ses (exec (fire h) w) = ses w.
Proof.
  fire_cases h w; by rewrite rearm_ses.
Qed.

Lemma fire_clock h w : clock (exec (fire h) w) = clock w.
Proof.
  fire_cases h w; by rewrite rearm_clock.
Qed.

Lemma fire_other h h' w :
  h <> h' -> timers (exec (fire h) w) !! h' = timers w !! h'.
Proof.
  intros Hne. fire_cases h w; by rewrite rearm_other.
Qed.

(** While a debounce timer is pending and its window has not elapsed, a
    turn of the timer phase writes no [todos_changed] and leaves the timer
    pending. *)
Lemma Pending_fire h' w last h :
  Pending w last h ->
  Pending (exec (fire h') w) last h
  /\ filter is_changed (output (Fire h') w) = [].
Proof.
  intros (HI & Hst & Hd & Ht & Hlo & Hhi).
  destruct (decide (h' = h)) as [->|Hne].
  - assert (Hnot : (last + DEBOUNCE_MS <=? clock w) = false)
      by (apply N.leb_gt; lia).
    split.
    + rewrite fire_run, Ht. simpl. rewrite Hnot. by apply Pending_intro.
    + simpl. rewrite Ht. simpl. by rewrite Hnot.
  - split.
    + apply Pending_intro.
      * by apply (Inv_handle (Fire h')).
      * by rewrite fire_ses.
      * by rewrite fire_ses.
      * by rewrite fire_other.
      * by rewrite fire_clock.
      * by rewrite fire_clock.
    + simpl. destruct (timers w !! h') as [t|] eqn:Hl; [|done].
      destruct (t_due t <=? clock w); [|done].
      destruct (t_cb t) eqn:Hcb.
      * pose proof (inv_debounce _ HI _ _ Hl Hcb). congruence.
      * by destruct (started (ses w)).
Qed.

Lemma filter_changed_app (fs gs : list frame) :
  filter is_changed fs = [] -> filter is_changed gs = [] ->
  filter is_changed (fs ++ gs) = [].
Proof. intros H1 H2. by rewrite filter_app, H1, H2. Qed.

(** Along a burst the debounce timer stays pending, re-armed by every
    delivery for a full window, and no [todos_changed] goes out. *)
Lemma burst_run tr : forall w last h,
  Pending w last h ->
  in_window (clock w - last) tr = true ->
  exists h',
    Pending (run tr w) (last_delivery (clock w) last tr) h'
    /\ filter is_changed (outputs tr w) = [].
Proof.
  induction tr as [|e tr IH]; intros w last h HP Hin.
  - exists h. by split.
  - destruct e as [dt|h'|s d| | |now]; simpl in Hin |- *.
    + apply andb_true_iff in Hin as [Hlt Hin]. apply N.ltb_lt in Hlt.
      destruct HP as (HI & Hst & Hd & Ht & Hlo & Hhi).
      assert (HP' : Pending (tick dt w) last h).
      { apply Pending_intro; try done.
        - by apply (Inv_handle (Advance dt)).
        - simpl. lia.
        - simpl. lia. }
      apply (IH _ _ _ HP'). simpl.
      replace (clock w + dt - last) with (clock w - last + dt) by lia. done.
    + destruct (Pending_fire h' _ _ _ HP) as [HP' Hout].
      destruct (IH _ _ _ HP') as (h'' & HP'' & Hout').
      { by rewrite fire_clock. }
      rewrite fire_clock in HP''. exists h''. split; [done|].
      apply filter_changed_app; [apply Hout | done].
    + destruct HP as (HI & Hst & Hd & Ht & Hlo & Hhi).
      assert (Harm : exec (deliver s d) w = arm_debounce w).
      { rewrite deliver_run, Hst.
        destruct (inv_listening _ HI Hst) as [[o Ho] [a Ha]].
        destruct s; by rewrite ?Ho, ?Ha. }
      rewrite Harm.
      apply (IH _ _ _ (Pending_arm w HI Hst)). simpl.
      by rewrite N.sub_diag.
    + discriminate.
    + discriminate.
    + destruct HP as (HI & Hst & Hd & Ht & Hlo & Hhi).
      apply (IH (set_wall now w) last h); [|done].
      apply Pending_intro; try done. by apply (Inv_handle (Wall now)).
Qed.

(** Firing a pending debounce timer once its time has come on the loop
    clock; [now] is what the wall clock reads then. *)
Lemma Pending_due w last h dt now :
  Inv w -> started (ses w) = true ->
  timers w !! h = Some {| t_cb := DebounceFire; t_due := last + DEBOUNCE_MS;
                          t_repeat := None |} ->
  last + DEBOUNCE_MS <= clock w + dt ->
  let w2 := run [Advance dt; Wall now; Fire h] w in
  emits w w2 [Event "todos_changed" (todos_changed now)]
  /\ forall h' t', timers w2 !! h' = Some t' -> t_cb t' <> DebounceFire.
Proof.
  intros HI Hst Ht Hdue w2. subst w2. simpl.
  assert (Hle : (last + DEBOUNCE_MS <=? clock w + dt) = true)
    by (by apply N.leb_le).
  split.
  - pose proof (handle_emits (Fire h) (set_wall now (tick dt w))) as He.
    simpl in He. rewrite Ht in He. simpl in He. rewrite Hle in He.
    unfold emits in *. by rewrite He.
  - intros h' t' Hl Hcb. rewrite fire_run in Hl. simpl in Hl.
    rewrite Ht in Hl. simpl in Hl. rewrite Hle in Hl. simpl in Hl.
    apply lookup_delete_Some in Hl as [Hne Hl].
    pose proof (inv_debounce _ HI _ _ Hl Hcb) as E1.
    pose proof (inv_debounce _ HI _ _ Ht eq_refl) as E2. congruence.
Qed.

Lemma Pending_early w last h dt now :
  timers w !! h = Some {| t_cb := DebounceFire; t_due := last + DEBOUNCE_MS;
                          t_repeat := None |} ->
  clock w + dt < last + DEBOUNCE_MS ->
  run [Advance dt; Wall now; Fire h] w = set_wall now (tick dt w).
Proof.
  intros Ht Hlt. simpl. rewrite fire_run. simpl. rewrite Ht. simpl.
  assert ((last + DEBOUNCE_MS <=? clock w + dt) = false) as ->
    by (apply N.leb_gt; lia). done.
Qed.

Section Notifier.

Variable readSessionCookie : Request -> option string.
Variable verifyIdToken : string -> outcome DecodedIdToken.
Variable verifySessionCookie : string -> outcome DecodedIdToken.

Abbreviation todosStream_ :=
  (todosStream readSessionCookie verifyIdToken verifySessionCookie).

(** C3, as the code has it. Trailing-edge debounce: take a started session
    in any state [w] and a burst, a delivery followed by a trace [tr] in
    which less than one window passes on the loop clock after each delivery
    and the request stays open ([K] is one plus the number of deliveries in
    [tr]; timer turns, keep-alive ticks and steps of the wall clock may
    come in between). During the burst no [todos_changed] frame is written.
    At its end exactly one debounce timer [h] is armed, due on the loop
    clock one full window after the last delivery. Firing [h] before that
    does nothing; firing it from then on writes exactly one frame,
    [todos_changed] stamped with what [Date.now()] reads at that moment,
    whatever that is; after it no debounce timer is left. *)
Theorem debounce_trailing_edge req t0 tr0 s d tr :
  let w := run tr0 (exec (todosStream_ req) (init_world t0)) in
  let w1 := run (Snapshot s d :: tr) w in
  let last := last_delivery (clock w) (clock w) tr in
  started (ses w) = true ->
  in_window 0 tr = true ->
  exists h fs,
    emits w w1 fs
    /\ filter is_changed fs = []
    /\ timers w1 !! h = Some {| t_cb := DebounceFire;
                                t_due := last + DEBOUNCE_MS;
                                t_repeat := None |}
    /\ (forall h' t',
          timers w1 !! h' = Some t' -> t_cb t' = DebounceFire -> h' = h)
    /\ forall dt now,
         (clock w1 + dt < last + DEBOUNCE_MS ->
          emits w1 (run [Advance dt; Wall now; Fire h] w1) [])
         /\ (last + DEBOUNCE_MS <= clock w1 + dt ->
             let w2 := run [Advance dt; Wall now; Fire h] w1 in
             emits w1 w2 [Event "todos_changed" (todos_changed now)]
             /\ forall h' t',
                  timers w2 !! h' = Some t' -> t_cb t' <> DebounceFire).
Proof.
  intros w w1 last Hst Hin.
  pose proof (Inv_session readSessionCookie verifyIdToken
                verifySessionCookie req t0 tr0) as HI. fold w in HI.
  assert (Harm : handle (Snapshot s d) w = arm_debounce w).
  { simpl. rewrite deliver_run, Hst.
    destruct (inv_listening _ HI Hst) as [[o Ho] [a Ha]].
    destruct s; by rewrite ?Ho, ?Ha. }
  destruct (burst_run tr _ _ _ (Pending_arm w HI Hst)) as (h & HP & Hout).
  { simpl. by rewrite N.sub_diag. }
  assert (Hw1 : w1 = run tr (arm_debounce w)).
  { subst w1. simpl run at 1. simpl in Harm. by rewrite Harm. }
  simpl clock in HP. fold last in HP. rewrite <- Hw1 in HP.
  destruct HP as (HI1 & Hst1 & Hd1 & Ht1 & Hlo & Hhi).
  exists h, (outputs tr (arm_debounce w)). repeat split.
  - rewrite Hw1. unfold emits. pose proof (run_emits tr (arm_debounce w)) as He.
    unfold emits in He. by rewrite He.
  - done.
  - done.
  - intros h' t' Hl Hcb.
    pose proof (inv_debounce _ HI1 _ _ Hl Hcb). congruence.
  - intros Hlt. rewrite (Pending_early _ last) by done.
    unfold emits. simpl. by rewrite app_nil_r.
  - by apply (Pending_due w1 last h dt now HI1 Hst1 Ht1).
  - by apply (Pending_due w1 last h dt now HI1 Hst1 Ht1).
Qed.

End Notifier.

(** ** Gates, failures and broken connections *)

Section Gates.

Variable readSessionCookie : Request -> option string.
Variable verifyIdToken : string -> outcome DecodedIdToken.
Variable verifySessionCookie : string -> outcome DecodedIdToken.

Abbreviation verify_ := (verify verifyIdToken verifySessionCookie).
Abbreviation todosStream_ :=
  (todosStream readSessionCookie verifyIdToken verifySessionCookie).

(** C2, as the code has it. The snapshot handlers and the keep-alive tick
    test [started] when they run and do nothing on a stopped session.
    The debounce path tests [started] when it schedules, in
    [scheduleEmit]; the callback it arms tests nothing and writes a
    [todos_changed] frame stamped with [Date.now()] in whatever state it
    is run. Along every execution of a session an armed timer belongs to a
    started session, so no turn of the loop writes in a stopped session. *)
Theorem emission_gates :
  (forall s d w,
      started (ses w) = false -> exec (snapshot_callback s d) w = w)
  /\ (forall w,
        started (ses w) = false -> exec (timer_callback KeepAliveTick) w = w)
  /\ (forall w, started (ses w) = false -> exec scheduleEmit w = w)
  /\ (forall w,
        emits w (exec (timer_callback DebounceFire) w)
          [Event "todos_changed" (todos_changed (wall w))])
  /\ (forall req t0 tr h t,
        let w := run tr (exec (todosStream_ req) (init_world t0)) in
        timers w !! h = Some t -> started (ses w) = true)
  /\ (forall req t0 tr e,
        let w := run tr (exec (todosStream_ req) (init_world t0)) in
        writes (res (handle e w)) <> writes (res w) ->
        started (ses w) = true).
Proof.
  repeat split.
  - intros s d w H. unfold exec. by rewrite snapshot_callback_run, H.
  - intros w H. unfold exec. by rewrite timer_callback_keepAlive, H.
  - intros w H. unfold exec. by rewrite scheduleEmit_run, H.
  - intros w. unfold emits, exec. rewrite timer_callback_debounce. simpl.
    by rewrite <- app_assoc.
  - intros req t0 tr h t w Hl.
    pose proof (Inv_session readSessionCookie verifyIdToken
                  verifySessionCookie req t0 tr) as HI. fold w in HI.
    destruct (started (ses w)) eqn:E; [done|].
    rewrite (inv_stopped _ HI E) in Hl. by rewrite lookup_empty in Hl.
  - intros req t0 tr e w Hw.
    pose proof (Inv_session readSessionCookie verifyIdToken
                  verifySessionCookie req t0 tr) as HI. fold w in HI.
    destruct (started (ses w)) eqn:E; [done|].
    destruct (Quiet_handle e w) as [_ Hsame];
      [split; [done | by apply (inv_stopped _ HI)] | done].
Qed.

(** C6, as the code has it. Both failures answer 401 with a JSON body
    [{error: msg}] and nothing else, but the message tells them apart:
    [Missing session] when no credential was supplied, [Invalid or expired
    token] when the supplied one was rejected. The second answer is the
    same for every rejection, whatever error the verifier raised. *)
Theorem failure_responses req t0 :
  let r := res (exec (todosStream_ req) (init_world t0)) in
  (truthy (tokenParam req) = false ->
   truthy (readSessionCookie req) = false ->
   r = failure_response missing_session)
  /\ (forall e,
        truthy (tokenParam req) || truthy (readSessionCookie req) = true ->
        verify_ (tokenParam req) (readSessionCookie req) = Throw e ->
        r = failure_response invalid_token).
Proof.
  intros r. subst r. unfold exec. split.
  - intros Ht Hc. rewrite todosStream_missing by done.
    reflexivity.
  - intros e Hc Hv. rewrite (todosStream_invalid _ _ _ _ _ e) by done.
    reflexivity.
Qed.

End Gates.



Lemma Inv_disconnect w : Inv w -> Inv (disconnect w).
Proof. intros [Hd Hk Hs Hl Hq]. by split. Qed.


(** ** Concrete runs *)

Example alice_session_opens :
  writes (res alice_session) = encode (Event "ready" ready_payload)
  /\ started (ses alice_session) = true
  /\ keepAlive (ses alice_session) = Some 2%nat.
Proof. by vm_compute. Qed.

Example alice_burst :
  writes (res (run (Snapshot Owned Next :: sample_burst
                      ++ [Advance 50; Fire 5%nat]) alice_session))
  = [EventLine "ready"; DataLine ready_payload;
     EventLine "todos_changed"; DataLine (todos_changed 1400)].
Proof. by vm_compute. Qed.

(** Closing while the debounce timer and the keep-alive timer are pending:
    nothing is written afterwards. *)
Example close_with_pending_timers :
  let w := run [Snapshot Owned Next; Advance 100] alice_session in
  timers w !! 3%nat = Some {| t_cb := DebounceFire; t_due := 1250;
                              t_repeat := None |}
  /\ timers w !! 2%nat = Some {| t_cb := KeepAliveTick; t_due := 26000;
                                 t_repeat := Some 25000 |}
  /\ writes (res (run [Close; Advance 30000; Fire 3%nat; Fire 2%nat;
                       Snapshot Assigned Next; Advance 300; Fire 4%nat] w))
     = [EventLine "ready"; DataLine ready_payload].
Proof. by vm_compute. Qed.

(** With a repeated token parameter next to a cookie, the answer depends on
    what the cookie verifier says. *)
Lemma repeated_token_consults_cookie :
  ~ (forall req vsc1 vsc2,
        is_Some (query_token req) ->
        is_Some (sample_readSessionCookie req) ->
        exec (todosStream sample_readSessionCookie sample_verifyIdToken vsc1
                req) (init_world 0)
        = exec (todosStream sample_readSessionCookie sample_verifyIdToken vsc2
                  req) (init_world 0)).
Proof.
  intros H.
  specialize (H req_repeated_token_good_cookie sample_verifySessionCookie
                reject_cookies).
  assert (E : started (ses (exec (todosStream sample_readSessionCookie
                                    sample_verifyIdToken
                                    sample_verifySessionCookie
                                    req_repeated_token_good_cookie)
                              (init_world 0))) = false).
  { rewrite H; [by vm_compute | by eexists | by eexists]. }
  vm_compute in E. discriminate E.
Qed.

(** An empty token parameter counts as no token: the cookie is verified. *)
Example empty_token_uses_cookie :
  started (ses (exec (sample_todosStream req_empty_token_good_cookie)
                  (init_world 0))) = true
  /\ listeners (exec (sample_todosStream req_empty_token_good_cookie)
                  (init_world 0)) !! 0%nat = Some (OwnerUidEq "bob").
Proof. by vm_compute. Qed.

(** The debounce callback, run on a stopped session, writes its frame. *)
Lemma debounce_callback_not_gated :
  ~ (forall w,
        started (ses w) = false ->
        writes (res (exec (timer_callback DebounceFire) w)) = writes (res w)).
Proof.
  intros H. specialize (H (teardown alice_session) eq_refl).
  vm_compute in H. discriminate H.
Qed.

(** The stamp is what the wall clock reads when the callback runs. A
    delivery is made when both clocks read 1000; the timer runs when due,
    250 ms later on the loop clock, while the wall clock reads 1249: the
    frame is stamped 1249, less than the delivery time plus the window. *)
Lemma stamp_can_precede_the_deadline :
  ~ (forall s d dt now h stamp,
        let w1 := run [Snapshot s d; Advance dt; Wall now] alice_session in
        emits w1 (handle (Fire h) w1)
          [Event "todos_changed" (todos_changed stamp)] ->
        wall alice_session + DEBOUNCE_MS <= stamp).
Proof.
  intros H. specialize (H Owned Next 250 1249 3%nat 1249).
  assert (E : wall alice_session + DEBOUNCE_MS <= 1249)
    by (apply H; by vm_compute).
  vm_compute in E. by apply E.
Qed.

(** The two refusals do not have the same body. *)
Lemma missing_and_invalid_differ :
  ~ (res (exec (sample_todosStream req_anonymous) (init_world 0))
     = res (exec (sample_todosStream req_bad_token_good_cookie) (init_world 0))).
Proof.
  intros H. apply (f_equal body) in H. vm_compute in H. discriminate H.
Qed.


(** ** The theorems at concrete inputs *)

Lemma ready_is_first_witness :
  exists fs,
    writes (res (run sample_burst alice_session))
    = (encode (Event "ready" ready_payload) ++ concat (encode <$> fs))%list.
Proof.
  apply (ready_is_first sample_readSessionCookie sample_verifyIdToken
           sample_verifySessionCookie req_alice 1000 sample_burst).
  reflexivity.
Defined.

Lemma unauthenticated_is_rejected_witness :
  statusCode (res (exec (sample_todosStream req_bad_token_good_cookie)
                     (init_world 7))) = 401.
Proof.
  apply (unauthenticated_is_rejected sample_readSessionCookie
           sample_verifyIdToken sample_verifySessionCookie
           req_bad_token_good_cookie 7).
  right. exists (FirebaseAuthError "auth/argument-error"). reflexivity.
Defined.

Lemma origin_echo_witness :
  headers (res (run sample_burst alice_session))
    !! "Access-Control-Allow-Origin" = Some ALLOWED_ORIGIN_WEB.
Proof.
  apply (origin_echo sample_readSessionCookie sample_verifyIdToken
           sample_verifySessionCookie req_alice 1000 {| uid := "alice" |}
           sample_burst eq_refl eq_refl).
  - reflexivity.
  - left. reflexivity.
Defined.

Lemma token_takes_precedence_witness :
  exec (sample_todosStream req_bad_token_good_cookie) (init_world 7)
  = rejected invalid_token (init_world 7).
Proof.
  apply (token_takes_precedence sample_readSessionCookie sample_verifyIdToken
           sample_verifySessionCookie req_bad_token_good_cookie "garbage" 7
           eq_refl ltac:(discriminate)).
Defined.

Lemma debounce_trailing_edge_witness :
  let w := run [] (exec (todosStream sample_readSessionCookie
                           sample_verifyIdToken sample_verifySessionCookie
                           req_alice) (init_world 1000)) in
  let w1 := run (Snapshot Owned Next :: sample_burst) w in
  exists h,
    emits w1 (run [Advance 50; Wall 1399; Fire h] w1)
      [Event "todos_changed" (todos_changed 1399)].
Proof.
  intros w w1.
  destruct (debounce_trailing_edge sample_readSessionCookie
              sample_verifyIdToken sample_verifySessionCookie req_alice 1000
              [] Owned Next sample_burst eq_refl eq_refl)
    as (h & fs & _ & _ & _ & _ & Hfire).
  exists h. destruct (Hfire 50 1399) as [_ Hdue].
  match type of Hdue with
  | ?P -> _ => assert (Hle : P) by (vm_compute; discriminate)
  end.
  destruct (Hdue Hle) as [He _]. exact He.
Defined.


(** * More about the session *)

(** ** What single events keep *)

Lemma deliver_started s d w :
  started (ses (exec (deliver s d) w)) = started (ses w).
Proof. deliver_cases s w; done. Qed.

Lemma handle_started_mono e w :
  started (ses (handle e w)) = true -> started (ses w) = true.
Proof.
  destruct e as [dt|h|s d| | |now]; simpl; try done.
  - by rewrite fire_ses.
  - by rewrite deliver_started.
  - rewrite emit_close_run. by destruct (onClose (ses w)).
  - rewrite emit_close_run. simpl. by destruct (onClose (ses w)).
Qed.

Lemma handle_keeps e w :
  e <> Close -> e <> ClientGone ->
  started (ses (handle e w)) = started (ses w)
  /\ onClose (ses (handle e w)) = onClose (ses w)
  /\ listeners (handle e w) = listeners w
  /\ ended (res (handle e w)) = ended (res w).
Proof.
  intros Hne Hne'. destruct e as [dt|h|s d| | |now]; simpl; try done.
  - rewrite fire_ses. repeat split.
    + fire_cases h w; by rewrite rearm_listeners.
    + fire_cases h w; by rewrite rearm_res.
  - repeat split; deliver_cases s w; done.
Qed.

Lemma handle_clock e w : clock w <= clock (handle e w).
Proof.
  destruct e as [dt|h|s d| | |now]; simpl; try lia.
  - rewrite fire_clock. lia.
  - deliver_cases s w; simpl; lia.
  - rewrite emit_close_run. destruct (onClose (ses w)); simpl; lia.
  - rewrite emit_close_run. simpl. destruct (onClose (ses w)); simpl; lia.
Qed.

Lemma run_clock tr w : clock w <= clock (run tr w).
Proof.
  revert w. induction tr as [|e tr IH]; intros w; simpl; [lia|].
  pose proof (handle_clock e w). pose proof (IH (handle e w)). lia.
Qed.

Lemma handle_status e w : statusCode (res (handle e w)) = statusCode (res w).
Proof.
  destruct e as [dt|h|s d| | |now]; simpl; try done.
  - fire_cases h w; by rewrite rearm_res.
  - deliver_cases s w; done.
  - rewrite emit_close_run. by destruct (onClose (ses w)).
  - rewrite emit_close_run. simpl. by destruct (onClose (ses w)).
Qed.

Lemma handle_headersSent e w :
  headersSent (res w) = true -> headersSent (res (handle e w)) = true.
Proof.
  intros H. destruct e as [dt|h|s d| | |now]; simpl; try done.
  - fire_cases h w; by rewrite rearm_res.
  - deliver_cases s w; done.
  - rewrite emit_close_run. by destruct (onClose (ses w)).
  - rewrite emit_close_run. simpl. by destruct (onClose (ses w)).
Qed.

Lemma run_status tr w : statusCode (res (run tr w)) = statusCode (res w).
Proof.
  revert w. induction tr as [|e tr IH]; intros w; [done|].
  simpl. by rewrite IH, handle_status.
Qed.

Lemma run_headersSent tr w :
  headersSent (res w) = true -> headersSent (res (run tr w)) = true.
Proof.
  revert w. induction tr as [|e tr IH]; intros w H; [done|].
  simpl. by apply IH, handle_headersSent.
Qed.

(** ** Closed is final *)

Lemma Closed_torn_down w : Inv w -> Closed (torn_down w).
Proof.
  intros HI. split; [by apply Quiet_torn_down|].
  split; [by apply torn_down_listeners | done].
Qed.

Lemma Closed_handle e w : Closed w -> Closed (handle e w).
Proof.
  intros (HQ & Hl & He). destruct (Quiet_handle e w HQ) as [HQ' _].
  split; [done|].
  assert (e = Close \/ e = ClientGone \/ (e <> Close /\ e <> ClientGone))
    as [->|[->|[Hne Hne']]]
    by (destruct e; (by left) || (by right; left) || (by right; right)).
  - simpl. rewrite emit_close_run. destruct (onClose (ses w)); [|done].
    simpl. rewrite Hl.
    destruct (unsubOwned (ses w)), (unsubAssigned (ses w));
      by rewrite ?delete_empty.
  - simpl. rewrite emit_close_run. simpl.
    destruct (onClose (ses w)); [|done].
    simpl. rewrite Hl.
    destruct (unsubOwned (ses w)), (unsubAssigned (ses w));
      by rewrite ?delete_empty.
  - destruct (handle_keeps e w Hne Hne') as (_ & _ & -> & ->). done.
Qed.

Lemma Closed_run tr w : Closed w -> Closed (run tr w).
Proof.
  revert w. induction tr as [|e tr IH]; intros w HC; [done|].
  simpl. by apply IH, Closed_handle.
Qed.

(** ** Handles stay fresh *)

Lemma Fresh_rearm h t w :
  timers w !! h = Some t -> Fresh w -> Fresh (rearm h t w).
Proof.
  intros Hh [Ht Hd Hk Hx]. unfold rearm.
  destruct (t_repeat t) as [p|]; split; simpl; try done.
  - intros h' t' Hl. apply lookup_insert_Some in Hl as [[<- _]|[_ Hl]]; eauto.
  - intros h' t' Hl. apply lookup_delete_Some in Hl as [_ Hl]. eauto.
Qed.

Lemma Fresh_with_res f w : Fresh w -> Fresh (with_res f w).
Proof. intros [Ht Hd Hk Hx]. by split. Qed.

Lemma Fresh_arm_debounce w : Fresh w -> Fresh (arm_debounce w).
Proof.
  intros [Ht Hd Hk Hx]. split; simpl.
  - intros h t Hl. apply lookup_insert_Some in Hl as [[<- _]|[_ Hl]]; [lia|].
    assert (timers w !! h = Some t) as Hl'.
    { destruct (debounce (ses w)); [|done].
      by apply lookup_delete_Some in Hl as [_ Hl]. }
    specialize (Ht _ _ Hl'). lia.
  - intros h [= <-]. lia.
  - intros h Hh. specialize (Hk _ Hh). lia.
  - intros h k [= <-] Hh. specialize (Hk _ Hh). lia.
Qed.

Lemma Fresh_torn_down w : Fresh w -> Fresh (torn_down w).
Proof.
  intros [Ht Hd Hk Hx]. split; simpl; try done.
  intros h t Hl.
  assert (timers w !! h = Some t) as Hl'; [|eauto].
  destruct (debounce (ses w)), (keepAlive (ses w));
    repeat (apply lookup_delete_Some in Hl as [_ Hl]); done.
Qed.

Lemma Fresh_handle e w : Fresh w -> Fresh (handle e w).
Proof.
  intros HF. destruct e as [dt|h|s d| | |now]; simpl.
  - destruct HF as [Ht Hd Hk Hx]. by split.
  - rewrite fire_run.
    destruct (timers w !! h) as [t|] eqn:Hl; [|done].
    destruct (t_due t <=? clock w); [|done].
    destruct (t_cb t); [|destruct (started (ses w))];
      try apply Fresh_with_res; by apply Fresh_rearm.
  - deliver_cases s w; try done. by apply Fresh_arm_debounce.
  - rewrite emit_close_run. destruct (onClose (ses w)); [|done].
    by apply Fresh_torn_down.
  - assert (Fresh (disconnect w)) as HF'
      by (destruct HF as [Ht Hd Hk Hx]; by split).
    rewrite emit_close_run. simpl. destruct (onClose (ses w)); [|done].
    by apply Fresh_torn_down.
  - destruct HF as [Ht Hd Hk Hx]. by split.
Qed.

Lemma Fresh_run tr w : Fresh w -> Fresh (run tr w).
Proof.
  revert w. induction tr as [|e tr IH]; intros w HF; [done|].
  simpl. by apply IH, Fresh_handle.
Qed.

Lemma Fresh_init t0 : Fresh (init_world t0).
Proof.
  split; simpl; try done; intros h t Hl; by rewrite lookup_empty in Hl.
Qed.

Lemma Fresh_opened req decoded t0 : Fresh (opened req decoded (init_world t0)).
Proof.
  split; simpl; try done.
  - intros h t Hl. apply lookup_insert_Some in Hl as [[<- _]|[_ Hl]]; [lia|].
    by rewrite lookup_empty in Hl.
  - intros h [= <-]. lia.
Qed.

(** ** The keep-alive timer *)

Lemma KeepAliveArmed_handle e w :
  Fresh w -> KeepAliveArmed w -> KeepAliveArmed (handle e w).
Proof.
  intros HF HK Hst. pose proof (handle_started_mono e w Hst) as Hst0.
  destruct (HK Hst0) as (k & due & Hk & Hl & Hdue).
  destruct e as [dt|h|s d| | |now]; simpl in *.
  - exists k, due. repeat split; try done. lia.
  - rewrite fire_ses, fire_clock.
    destruct (decide (h = k)) as [->|Hne].
    + rewrite fire_run, Hl. simpl.
      destruct (due <=? clock w); [|by exists k, due].
      rewrite Hst0. unfold rearm. simpl.
      exists k, (clock w + KEEPALIVE_MS). rewrite lookup_insert_eq. done.
    + exists k, due. by rewrite fire_other.
  - rewrite deliver_run.
    destruct (match s with Owned => _ | Assigned => _ end);
      [rewrite Hst0 | by exists k, due].
    exists k, due. simpl. split; [done|]. split; [|done].
    pose proof (fresh_keepAlive _ HF _ Hk) as Hlt.
    rewrite lookup_insert_ne by lia.
    destruct (debounce (ses w)) as [h|] eqn:Hd; [|done].
    rewrite lookup_delete_ne; [done|].
    by apply (fresh_distinct _ HF).
  - rewrite emit_close_run in *. destruct (onClose (ses w));
      [discriminate Hst | by exists k, due].
  - rewrite emit_close_run in *. simpl in *. destruct (onClose (ses w));
      [discriminate Hst | by exists k, due].
  - by exists k, due.
Qed.

Lemma KeepAliveArmed_run tr w :
  Fresh w -> KeepAliveArmed w -> KeepAliveArmed (run tr w).
Proof.
  revert w. induction tr as [|e tr IH]; intros w HF HK; [done|].
  simpl. apply IH; [by apply Fresh_handle | by apply KeepAliveArmed_handle].
Qed.

Lemma LiveOrClosed_handle u e w :
  Inv w -> LiveOrClosed u w -> LiveOrClosed u (handle e w).
Proof.
  intros HI [[Hst Hl]|HC]; [|right; by apply Closed_handle].
  assert (e = Close \/ e = ClientGone \/ (e <> Close /\ e <> ClientGone))
    as [->|[->|[Hne Hne']]]
    by (destruct e; (by left) || (by right; left) || (by right; right)).
  - simpl. rewrite emit_close_run. destruct (onClose (ses w)); [|by left].
    right. by apply Closed_torn_down.
  - simpl. rewrite emit_close_run. simpl.
    destruct (onClose (ses w)); [|by left].
    right. by apply Closed_torn_down, Inv_disconnect.
  - left. destruct (handle_keeps e w Hne Hne') as (-> & _ & -> & _). done.
Qed.

Lemma LiveOrClosed_run u tr w :
  Inv w -> LiveOrClosed u w -> LiveOrClosed u (run tr w).
Proof.
  revert w. induction tr as [|e tr IH]; intros w HI HL; [done|].
  simpl. apply IH; [by apply Inv_handle | by apply LiveOrClosed_handle].
Qed.

Section Stream.

Variable readSessionCookie : Request -> option string.
Variable verifyIdToken : string -> outcome DecodedIdToken.
Variable verifySessionCookie : string -> outcome DecodedIdToken.

Abbreviation verify_ := (verify verifyIdToken verifySessionCookie).
Abbreviation todosStream_ :=
  (todosStream readSessionCookie verifyIdToken verifySessionCookie).

Lemma Fresh_session req t0 tr :
  Fresh (run tr (exec (todosStream_ req) (init_world t0))).
Proof.
  apply Fresh_run.
  destruct (todosStream_cases readSessionCookie verifyIdToken
              verifySessionCookie req (init_world t0) eq_refl)
    as [-> | [-> | [d ->]]].
  - apply Fresh_with_res, Fresh_init.
  - apply Fresh_with_res, Fresh_init.
  - apply Fresh_opened.
Qed.

Lemma KeepAliveArmed_session req t0 tr :
  KeepAliveArmed (run tr (exec (todosStream_ req) (init_world t0))).
Proof.
  apply KeepAliveArmed_run; [apply (Fresh_session req t0 [])|].
  destruct (todosStream_cases readSessionCookie verifyIdToken
              verifySessionCookie req (init_world t0) eq_refl)
    as [-> | [-> | [d ->]]]; intros Hst; try discriminate Hst.
  exists 2%nat, (t0 + KEEPALIVE_MS). simpl.
  rewrite lookup_insert_eq. repeat split; lia.
Qed.

(** X1. The stream headers: once the credential is verified the response
    has status 200 and the four headers of an event stream, already sent,
    and they stay so whatever happens later. *)
Theorem stream_response_headers req t0 decoded tr :
  truthy (tokenParam req) || truthy (readSessionCookie req) = true ->
  verify_ (tokenParam req) (readSessionCookie req) = Ok decoded ->
  let r := res (run tr (exec (todosStream_ req) (init_world t0))) in
  statusCode r = 200
  /\ headersSent r = true
  /\ headers r !! "Content-Type" = Some "text/event-stream"
  /\ headers r !! "Cache-Control" = Some "no-cache, no-transform"
  /\ headers r !! "Connection" = Some "keep-alive"
  /\ headers r !! "X-Accel-Buffering" = Some "no".
Proof.
  intros Hc Hv r. subst r.
  rewrite run_status, run_headers, run_headersSent; unfold exec;
    rewrite (todosStream_opened _ _ _ _ _ decoded) by done; cbn [snd];
    [|done].
  change (headers (res (opened req decoded (init_world t0))))
    with (stream_headers (origin_header req) ∅).
  unfold stream_headers. repeat split;
    repeat (rewrite lookup_insert_ne by done); apply lookup_insert_eq.
Qed.

(** X2. The two listeners: a session opened for a verified user has, as
    long as it is started, exactly the two listeners of that user, one on
    [ownerUid == uid] and one on [assigneeUids array-contains uid]; once it
    is stopped it has none. *)
Theorem session_has_its_two_listeners req t0 decoded tr :
  truthy (tokenParam req) || truthy (readSessionCookie req) = true ->
  verify_ (tokenParam req) (readSessionCookie req) = Ok decoded ->
  let w := run tr (exec (todosStream_ req) (init_world t0)) in
  (started (ses w) = true /\ listeners w = session_listeners (uid decoded))
  \/ (started (ses w) = false /\ listeners w = ∅).
Proof.
  intros Hc Hv w.
  assert (HL : LiveOrClosed (uid decoded) w).
  { subst w. unfold exec.
    rewrite (todosStream_opened _ _ _ _ _ decoded) by done. cbn [snd].
    apply LiveOrClosed_run; [by apply Inv_opened | by left]. }
  destruct HL as [HL | ((Hst & _) & Hl & _)]; [by left | by right].
Qed.

(** X3. Closed is final: after the close handler has run, whatever happens
    next, the session stays stopped, no timer is armed again, no listener is
    registered again and the response stays ended. *)
Theorem closed_is_final req t0 tr1 tr2 :
  let w := run tr2 (teardown (run tr1 (exec (todosStream_ req)
                                         (init_world t0)))) in
  started (ses w) = false
  /\ timers w = ∅
  /\ listeners w = ∅
  /\ ended (res w) = true.
Proof.
  intros w.
  assert (HC : Closed w).
  { subst w. apply Closed_run. rewrite teardown_eq.
    apply Closed_torn_down, Inv_session. }
  destruct HC as ((Hst & Ht) & Hl & He). done.
Qed.

(** X4. One slot per timer: in every state of a session at most one debounce
    timer and at most one keep-alive timer are armed. *)
Theorem one_timer_of_each_kind req t0 tr h1 h2 t1 t2 :
  let w := run tr (exec (todosStream_ req) (init_world t0)) in
  timers w !! h1 = Some t1 ->
  timers w !! h2 = Some t2 ->
  t_cb t1 = t_cb t2 ->
  h1 = h2.
Proof.
  intros w H1 H2 Hcb.
  pose proof (Inv_session readSessionCookie verifyIdToken
                verifySessionCookie req t0 tr) as HI. fold w in HI.
  destruct (t_cb t1) eqn:E1.
  - pose proof (inv_debounce _ HI _ _ H1 E1).
    pose proof (inv_debounce _ HI _ _ H2 (eq_sym Hcb)). congruence.
  - pose proof (inv_keepAlive _ HI _ _ H1 E1).
    pose proof (inv_keepAlive _ HI _ _ H2 (eq_sym Hcb)). congruence.
Qed.

(** X7. The heartbeat is always armed: in every state of a started session the
    keep-alive timer is armed under the handle [keepAlive] holds, repeats
    every 25000 ms and is due no later than 25000 ms from now; no delivery
    and no debounce timer ever cancels or replaces it. *)
Theorem keepalive_always_armed req t0 tr :
  let w := run tr (exec (todosStream_ req) (init_world t0)) in
  started (ses w) = true ->
  exists k due,
    keepAlive (ses w) = Some k
    /\ timers w !! k = Some {| t_cb := KeepAliveTick; t_due := due;
                               t_repeat := Some KEEPALIVE_MS |}
    /\ due <= clock w + KEEPALIVE_MS.
Proof. intros w. apply KeepAliveArmed_session. Qed.

(** X10. Empty credentials are missing credentials: when the token parameter
    is absent, empty or not a string and the cookie is absent or empty, the
    answer is 401 [Missing session], whatever the verifiers would say: none
    is asked. *)
Theorem empty_credentials_are_missing req t0 :
  (forall s, query_token req = Some (QString s) -> s = "") ->
  (forall c, readSessionCookie req = Some c -> c = "") ->
  let w := exec (todosStream_ req) (init_world t0) in
  res w = failure_response missing_session
  /\ started (ses w) = false
  /\ listeners w = ∅
  /\ timers w = ∅.
Proof.
  intros Ht Hc w.
  assert (truthy (tokenParam req) = false) as Ht'.
  { unfold tokenParam. destruct (query_token req) as [[s| |]|]; try done.
    by rewrite (Ht s eq_refl). }
  assert (truthy (readSessionCookie req) = false) as Hc'.
  { destruct (readSessionCookie req) as [c|]; [|done].
    by rewrite (Hc c eq_refl). }
  subst w. unfold exec. rewrite todosStream_missing by done. done.
Qed.

(** X11. Cookie fallback: when the token parameter is absent, empty or not a
    string and the session cookie is a non-empty string, the outcome is
    decided by [verifySessionCookie] on that cookie alone: the stream opens
    for the user it returns, or the answer is 401 [Invalid or expired
    token]. *)
Theorem cookie_is_the_fallback req c t0 :
  (forall s, query_token req = Some (QString s) -> s = "") ->
  readSessionCookie req = Some c ->
  c <> "" ->
  let w := init_world t0 in
  exec (todosStream_ req) w
  = match verifySessionCookie c with
    | Ok decoded => opened req decoded w
    | Throw _ => rejected invalid_token w
    end.
Proof.
  intros Ht Hc Hne w.
  assert (truthy (tokenParam req) = false) as Ht'.
  { unfold tokenParam. destruct (query_token req) as [[s| |]|]; try done.
    by rewrite (Ht s eq_refl). }
  assert (truthy (readSessionCookie req) = true) as Hc'.
  { rewrite Hc. simpl. apply negb_true_iff. by apply String.eqb_neq. }
  assert (Hv : verify_ (tokenParam req) (readSessionCookie req)
               = verifySessionCookie c).
  { unfold verify. by rewrite Ht', Hc. }
  unfold exec. destruct (verifySessionCookie c) as [d|e] eqn:E.
  - rewrite (todosStream_opened _ _ _ _ _ d); try done.
    by rewrite Ht', Hc'.
  - rewrite (todosStream_invalid _ _ _ _ _ e); try done.
    by rewrite Ht', Hc'.
Qed.

(** X12. Heartbeat and debounce do not touch each other: in every state of
    a session a delivery leaves the keep-alive timer as it is, a keep-alive
    tick leaves the debounce timer as it is, and a debounce firing leaves
    the keep-alive timer as it is. *)
Theorem heartbeat_and_debounce_are_independent req t0 tr k :
  let w := run tr (exec (todosStream_ req) (init_world t0)) in
  keepAlive (ses w) = Some k ->
  (forall s d, timers (handle (Snapshot s d) w) !! k = timers w !! k)
  /\ (forall h,
        debounce (ses w) = Some h ->
        timers (handle (Fire k) w) !! h = timers w !! h
        /\ timers (handle (Fire h) w) !! k = timers w !! k).
Proof.
  intros w Hk.
  pose proof (Fresh_session req t0 tr) as HF. fold w in HF.
  split.
  - intros s d. simpl. deliver_cases s w; try done. simpl.
    pose proof (fresh_keepAlive _ HF _ Hk) as Hlt.
    rewrite lookup_insert_ne by lia.
    destruct (debounce (ses w)) as [h|] eqn:Hd; [|done].
    rewrite lookup_delete_ne; [done|]. by apply (fresh_distinct _ HF).
  - intros h Hd. pose proof (fresh_distinct _ HF _ _ Hd Hk) as Hne.
    simpl. split; by rewrite fire_other.
Qed.

End Stream.

(** ** Counting notifications *)

Lemma OneShot_handle e w : OneShot w -> OneShot (handle e w).
Proof.
  intros HO. destruct e as [dt|h|s d| | |now]; simpl; try done.
  - rewrite fire_run. destruct (timers w !! h) as [t|] eqn:Hl; [|done].
    destruct (t_due t <=? clock w); [|done].
    assert (OneShot (rearm h t w)) as HO'.
    { intros h' t' Hl' Hcb. unfold rearm in Hl'.
      destruct (t_repeat t) as [p|] eqn:Hp; simpl in Hl'.
      - apply lookup_insert_Some in Hl' as [[_ <-]|[_ Hl']]; [|by eauto].
        simpl in Hcb. specialize (HO _ _ Hl Hcb). congruence.
      - apply lookup_delete_Some in Hl' as [_ Hl']. eauto. }
    by destruct (t_cb t); [|destruct (started (ses w))].
  - deliver_cases s w; try done.
    intros h t Hl Hcb. simpl in Hl.
    apply lookup_insert_Some in Hl as [[_ <-]|[_ Hl]]; [done|].
    destruct (debounce (ses w)); [|by eauto].
    apply lookup_delete_Some in Hl as [_ Hl]. eauto.
  - rewrite emit_close_run. destruct (onClose (ses w)); [|done].
    intros h t Hl Hcb. simpl in Hl.
    assert (timers w !! h = Some t) as Hl'; [|by eauto].
    destruct (debounce (ses w)), (keepAlive (ses w));
      repeat (apply lookup_delete_Some in Hl as [_ Hl]); done.
  - rewrite emit_close_run. simpl. destruct (onClose (ses w)); [|exact HO].
    intros h t Hl Hcb. simpl in Hl.
    assert (timers w !! h = Some t) as Hl'; [|by eauto].
    destruct (debounce (ses w)), (keepAlive (ses w));
      repeat (apply lookup_delete_Some in Hl as [_ Hl]); done.
Qed.

Lemma changed_lines_push_changed w j :
  changed_lines (with_res (fun r => push_write (DataLine j)
                             (push_write (EventLine "todos_changed") r)) w)
  = S (changed_lines w).
Proof.
  unfold changed_lines. simpl. rewrite <- app_assoc, filter_app, length_app.
  simpl. lia.
Qed.

Lemma changed_lines_push_comment w t :
  changed_lines (with_res (push_write (CommentLine t)) w) = changed_lines w.
Proof.
  unfold changed_lines. simpl. rewrite filter_app, length_app. simpl. lia.
Qed.

Lemma debounce_pending_armed w h t :
  debounce (ses w) = Some h -> timers w !! h = Some t ->
  t_cb t = DebounceFire -> debounce_pending w = 1%nat.
Proof.
  intros Hd Hl Hcb. unfold debounce_pending. rewrite Hd, Hl.
  destruct t as [cb due rp]. simpl in Hcb. by subst cb.
Qed.

Lemma debounce_pending_le w : (debounce_pending w <= 1)%nat.
Proof.
  unfold debounce_pending. destruct (debounce (ses w)); [|lia].
  destruct (timers w !! n) as [[[|] ? ?]|]; lia.
Qed.

Lemma notification_budget_torn_down w :
  Inv w ->
  (changed_lines (torn_down w) + debounce_pending (torn_down w)
   <= changed_lines w + debounce_pending w)%nat.
Proof.
  intros HI.
  change (changed_lines (torn_down w)) with (changed_lines w).
  unfold debounce_pending at 1. rewrite (torn_down_timers w HI).
  simpl. destruct (debounce (ses w)); rewrite ?lookup_empty; lia.
Qed.

(** One turn of the loop: a [todos_changed] line is paid for by the pending
    timer, and only a delivery can arm one. *)
Lemma notification_budget_step e w :
  Inv w -> OneShot w ->
  (changed_lines (handle e w) + debounce_pending (handle e w)
   <= changed_lines w + debounce_pending w
      + (if is_delivery e then 1 else 0))%nat.
Proof.
  intros HI HO. destruct e as [dt|h|s d| | |now]; simpl.
  - change (changed_lines (tick dt w)) with (changed_lines w).
    change (debounce_pending (tick dt w)) with (debounce_pending w). lia.
  - rewrite fire_run. destruct (timers w !! h) as [t|] eqn:Hl; [|lia].
    destruct (t_due t <=? clock w); [|lia].
    destruct (t_cb t) eqn:Hcb.
    + rewrite changed_lines_push_changed.
      pose proof (inv_debounce _ HI _ _ Hl Hcb) as Hd.
      rewrite (debounce_pending_armed w h t) by done.
      unfold rearm. rewrite (HO _ _ Hl Hcb).
      unfold debounce_pending. simpl. rewrite Hd, lookup_delete_eq.
      change (changed_lines (with_timers (delete h) w))
        with (changed_lines w). lia.
    + assert (changed_lines (rearm h t w) = changed_lines w) as Hc
        by (unfold changed_lines; by rewrite rearm_res).
      assert (debounce_pending (rearm h t w) = debounce_pending w) as Hp.
      { unfold debounce_pending. rewrite rearm_ses.
        destruct (debounce (ses w)) as [d|]; [|done].
        destruct (decide (h = d)) as [<-|Hne]; [|by rewrite rearm_other].
        rewrite Hl. unfold rearm.
        destruct (t_repeat t) as [p|]; simpl.
        - rewrite lookup_insert_eq. simpl. rewrite Hcb.
          by destruct t as [[|] ? ?].
        - rewrite lookup_delete_eq. by destruct t as [[|] ? ?]. }
      destruct (started (ses w)).
      * rewrite changed_lines_push_comment, Hc.
        change (debounce_pending (with_res _ (rearm h t w)))
          with (debounce_pending (rearm h t w)). rewrite Hp. lia.
      * rewrite Hc, Hp. lia.
  - deliver_cases s w; try lia.
    change (changed_lines (arm_debounce w)) with (changed_lines w).
    pose proof (debounce_pending_le (arm_debounce w)). lia.
  - rewrite emit_close_run. destruct (onClose (ses w)); [|lia].
    pose proof (notification_budget_torn_down w HI). lia.
  - rewrite emit_close_run. simpl. destruct (onClose (ses w)).
    + pose proof (notification_budget_torn_down _ (Inv_disconnect w HI)) as H.
      change (changed_lines (disconnect w)) with (changed_lines w) in H.
      change (debounce_pending (disconnect w)) with (debounce_pending w) in H.
      lia.
    + change (changed_lines (disconnect w)) with (changed_lines w).
      change (debounce_pending (disconnect w)) with (debounce_pending w). lia.
  - change (changed_lines (set_wall now w)) with (changed_lines w).
    change (debounce_pending (set_wall now w)) with (debounce_pending w). lia.
Qed.

Lemma notification_budget_run tr w :
  Inv w -> OneShot w ->
  (changed_lines (run tr w) + debounce_pending (run tr w)
   <= changed_lines w + debounce_pending w + deliveries tr)%nat.
Proof.
  revert w. induction tr as [|e tr IH]; intros w HI HO.
  - simpl. unfold deliveries. simpl. lia.
  - simpl run.
    pose proof (notification_budget_step e w HI HO) as Hstep.
    pose proof (IH _ (Inv_handle e w HI) (OneShot_handle e w HO)) as Hrest.
    unfold deliveries in *. rewrite filter_cons.
    destruct (is_delivery e) eqn:E.
    + rewrite decide_True by done. simpl. lia.
    + rewrite decide_False by (intros H; exact H). lia.
Qed.

(** ** The frames of a stream and their times *)

Lemma output_cases e w :
  output e w = []
  \/ output e w = [Event "todos_changed" (todos_changed (wall w))]
  \/ output e w = [Comment (wall w)].
Proof.
  destruct e as [dt|h|s d| | |now]; simpl; auto.
  destruct (timers w !! h) as [t|]; auto.
  destruct (t_due t <=? clock w); auto.
  destruct (t_cb t); auto. destruct (started (ses w)); auto.
Qed.

Lemma outputs_stream_frames tr w :
  Forall (fun f => is_stream_frame f = true) (outputs tr w).
Proof.
  revert w. induction tr as [|e tr IH]; intros w; simpl; [constructor|].
  apply Forall_app. split; [|apply IH].
  destruct (output_cases e w) as [-> | [-> | ->]]; repeat constructor.
Qed.

Section Wire.

Variable readSessionCookie : Request -> option string.
Variable verifyIdToken : string -> outcome DecodedIdToken.
Variable verifySessionCookie : string -> outcome DecodedIdToken.

Abbreviation todosStream_ :=
  (todosStream readSessionCookie verifyIdToken verifySessionCookie).

(** X5. No notification without a delivery: along every execution of a
    session the number of [todos_changed] frames written, plus one if a
    debounce timer is pending, is at most the number of deliveries so far.
    Without deliveries no [todos_changed] frame is ever written. *)
Theorem notifications_within_deliveries req t0 tr :
  let w := run tr (exec (todosStream_ req) (init_world t0)) in
  (changed_lines w + debounce_pending w <= deliveries tr)%nat.
Proof.
  intros w. subst w.
  destruct (todosStream_cases readSessionCookie verifyIdToken
              verifySessionCookie req (init_world t0) eq_refl)
    as [-> | [-> | [d ->]]].
  - pose proof (notification_budget_run tr
                  (rejected missing_session (init_world t0))) as H.
    apply H; [apply Inv_rejected, Inv_init|].
    intros h t Hl. simpl in Hl. by rewrite lookup_empty in Hl.
  - pose proof (notification_budget_run tr
                  (rejected invalid_token (init_world t0))) as H.
    apply H; [apply Inv_rejected, Inv_init|].
    intros h t Hl. simpl in Hl. by rewrite lookup_empty in Hl.
  - pose proof (notification_budget_run tr
                  (opened req d (init_world t0))) as H.
    apply H; [by apply Inv_opened|].
    intros h t Hl Hcb. simpl in Hl.
    apply lookup_insert_Some in Hl as [[_ <-]|[_ Hl]]; [done|].
    by rewrite lookup_empty in Hl.
Qed.

(** X6. What follows [ready]: the handler itself writes nothing or the
    [ready] frame; whatever is written later is a sequence of whole frames,
    each a [todos_changed] event whose data is [{at: n}] or a keep-alive
    comment. *)
Theorem stream_is_well_formed req t0 tr :
  let w0 := exec (todosStream_ req) (init_world t0) in
  let w := run tr w0 in
  (writes (res w0) = [] \/ writes (res w0) = encode (Event "ready" ready_payload))
  /\ exists fs,
       emits w0 w fs
       /\ Forall (fun f => is_stream_frame f = true) fs.
Proof.
  intros w0 w. split.
  - subst w0.
    destruct (todosStream_cases readSessionCookie verifyIdToken
                verifySessionCookie req (init_world t0) eq_refl)
      as [-> | [-> | [d ->]]]; auto.
  - exists (outputs tr w0). split; [apply run_emits|].
    apply outputs_stream_frames.
Qed.

End Wire.

(** ** These theorems at concrete inputs *)

Lemma stream_response_headers_witness :
  headers (res (run sample_burst
                  (exec (todosStream sample_readSessionCookie
                           sample_verifyIdToken sample_verifySessionCookie
                           req_cookie_of_bob) (init_world 5))))
    !! "Content-Type" = Some "text/event-stream".
Proof.
  apply (stream_response_headers sample_readSessionCookie
           sample_verifyIdToken sample_verifySessionCookie req_cookie_of_bob 5
           {| uid := "bob" |} sample_burst eq_refl eq_refl).
Defined.

Lemma session_has_its_two_listeners_witness :
  let w := run sample_burst
             (exec (todosStream sample_readSessionCookie sample_verifyIdToken
                      sample_verifySessionCookie req_cookie_of_bob)
                (init_world 5)) in
  (started (ses w) = true
   /\ listeners w = session_listeners (uid {| uid := "bob" |}))
  \/ (started (ses w) = false /\ listeners w = ∅).
Proof.
  exact (session_has_its_two_listeners sample_readSessionCookie
           sample_verifyIdToken sample_verifySessionCookie req_cookie_of_bob 5
           {| uid := "bob" |} sample_burst eq_refl eq_refl).
Defined.

Lemma one_timer_of_each_kind_witness :
  let w := run [Snapshot Owned Next]
             (exec (todosStream sample_readSessionCookie sample_verifyIdToken
                      sample_verifySessionCookie req_alice)
                (init_world 1000)) in
  timers w !! 3%nat = Some {| t_cb := DebounceFire; t_due := 1250;
                              t_repeat := None |}
  /\ 3%nat = 3%nat.
Proof.
  intros w.
  assert (H : timers w !! 3%nat = Some {| t_cb := DebounceFire; t_due := 1250;
                                          t_repeat := None |})
    by (by vm_compute).
  split; [exact H|].
  exact (one_timer_of_each_kind sample_readSessionCookie sample_verifyIdToken
           sample_verifySessionCookie req_alice 1000 [Snapshot Owned Next]
           3%nat 3%nat _ _ H H eq_refl).
Defined.

Lemma keepalive_always_armed_witness :
  let w := run sample_burst
             (exec (todosStream sample_readSessionCookie sample_verifyIdToken
                      sample_verifySessionCookie req_alice)
                (init_world 1000)) in
  exists k due,
    keepAlive (ses w) = Some k
    /\ timers w !! k = Some {| t_cb := KeepAliveTick; t_due := due;
                               t_repeat := Some KEEPALIVE_MS |}
    /\ due <= clock w + KEEPALIVE_MS.
Proof.
  exact (keepalive_always_armed sample_readSessionCookie sample_verifyIdToken
           sample_verifySessionCookie req_alice 1000 sample_burst eq_refl).
Defined.

Lemma empty_credentials_are_missing_witness :
  res (exec (todosStream sample_readSessionCookie sample_verifyIdToken
               sample_verifySessionCookie req_empty_credentials)
         (init_world 0))
  = failure_response missing_session.
Proof.
  apply (empty_credentials_are_missing sample_readSessionCookie
           sample_verifyIdToken sample_verifySessionCookie
           req_empty_credentials 0).
  - intros s H. injection H as <-. reflexivity.
  - intros c H. injection H as <-. reflexivity.
Defined.

Lemma cookie_is_the_fallback_witness :
  exec (todosStream sample_readSessionCookie sample_verifyIdToken
          sample_verifySessionCookie req_cookie_of_bob) (init_world 5)
  = match sample_verifySessionCookie "cookie-of-bob" with
    | Ok decoded => opened req_cookie_of_bob decoded (init_world 5)
    | Throw _ => rejected invalid_token (init_world 5)
    end.
Proof.
  apply (cookie_is_the_fallback sample_readSessionCookie sample_verifyIdToken
           sample_verifySessionCookie req_cookie_of_bob "cookie-of-bob" 5).
  - intros s H. discriminate H.
  - reflexivity.
  - discriminate.
Defined.

Lemma heartbeat_and_debounce_are_independent_witness :
  let w := run [Snapshot Owned Next]
             (exec (todosStream sample_readSessionCookie sample_verifyIdToken
                      sample_verifySessionCookie req_alice)
                (init_world 1000)) in
  timers (handle (Snapshot Assigned Error) w) !! 2%nat = timers w !! 2%nat.
Proof.
  intros w.
  apply (proj1 (heartbeat_and_debounce_are_independent
                  sample_readSessionCookie sample_verifyIdToken
                  sample_verifySessionCookie req_alice 1000
                  [Snapshot Owned Next] 2%nat eq_refl)).
Defined.

(** ** The debounce deadline *)

Lemma DebounceSoon_handle e w : DebounceSoon w -> DebounceSoon (handle e w).
Proof.
  intros HD. destruct e as [dt|h|s d| | |now]; simpl; try done.
  - intros h t Hl Hcb. destruct (HD _ _ Hl Hcb) as [Hr Hdue].
    split; [done|]. simpl. lia.
  - rewrite fire_run. destruct (timers w !! h) as [t|] eqn:Hl; [|done].
    destruct (t_due t <=? clock w); [|done].
    assert (DebounceSoon (rearm h t w)) as HD'.
    { intros h' t' Hl' Hcb. rewrite rearm_clock. unfold rearm in Hl'.
      destruct (t_repeat t) as [p|] eqn:Hp; simpl in Hl'.
      - apply lookup_insert_Some in Hl' as [[_ <-]|[_ Hl']]; [|by eauto].
        simpl in Hcb. destruct (HD _ _ Hl Hcb) as [Hr _]. congruence.
      - apply lookup_delete_Some in Hl' as [_ Hl']. eauto. }
    by destruct (t_cb t); [|destruct (started (ses w))].
  - deliver_cases s w; try done.
    intros h t Hl Hcb. simpl in Hl. simpl clock.
    apply lookup_insert_Some in Hl as [[_ <-]|[_ Hl]]; [simpl; split; [done|lia]|].
    destruct (debounce (ses w)); [|by eauto].
    apply lookup_delete_Some in Hl as [_ Hl]. eauto.
  - rewrite emit_close_run. destruct (onClose (ses w)); [|done].
    intros h t Hl Hcb. simpl in Hl. simpl clock.
    assert (timers w !! h = Some t) as Hl'; [|by eauto].
    destruct (debounce (ses w)), (keepAlive (ses w));
      repeat (apply lookup_delete_Some in Hl as [_ Hl]); done.
  - rewrite emit_close_run. simpl. destruct (onClose (ses w)); [|exact HD].
    intros h t Hl Hcb. simpl in Hl. simpl clock.
    assert (timers w !! h = Some t) as Hl'; [|by eauto].
    destruct (debounce (ses w)), (keepAlive (ses w));
      repeat (apply lookup_delete_Some in Hl as [_ Hl]); done.
Qed.

Lemma DebounceSoon_run tr w : DebounceSoon w -> DebounceSoon (run tr w).
Proof.
  revert w. induction tr as [|e tr IH]; intros w HD; [done|].
  simpl. by apply IH, DebounceSoon_handle.
Qed.

(** X13. The debounce deadline: in every state of a session an armed
    debounce timer is one-shot and due at most 250 ms from now, so a pending
    notification is never further away than one window. *)
Theorem debounce_is_due_within_a_window
    (readSessionCookie : Request -> option string)
    (verifyIdToken verifySessionCookie : string -> outcome DecodedIdToken)
    req t0 tr h t :
  let w := run tr (exec (todosStream readSessionCookie verifyIdToken
                           verifySessionCookie req) (init_world t0)) in
  timers w !! h = Some t ->
  t_cb t = DebounceFire ->
  t_repeat t = None /\ t_due t <= clock w + DEBOUNCE_MS.
Proof.
  intros w. apply DebounceSoon_run.
  destruct (todosStream_cases readSessionCookie verifyIdToken
              verifySessionCookie req (init_world t0) eq_refl)
    as [-> | [-> | [d ->]]]; intros h' t' Hl Hcb; simpl in Hl;
    try (by rewrite lookup_empty in Hl).
  apply lookup_insert_Some in Hl as [[_ <-]|[_ Hl]];
    [done | by rewrite lookup_empty in Hl].
Qed.

Lemma debounce_is_due_within_a_window_witness :
  let w := run [Snapshot Owned Next; Advance 100]
             (exec (todosStream sample_readSessionCookie sample_verifyIdToken
                      sample_verifySessionCookie req_alice)
                (init_world 1000)) in
  t_due {| t_cb := DebounceFire; t_due := 1250; t_repeat := None |}
  <= clock w + DEBOUNCE_MS.
Proof.
  intros w.
  assert (H : timers w !! 3%nat = Some {| t_cb := DebounceFire; t_due := 1250;
                                          t_repeat := None |})
    by (by vm_compute).
  apply (debounce_is_due_within_a_window sample_readSessionCookie
           sample_verifyIdToken sample_verifySessionCookie req_alice 1000
           [Snapshot Owned Next; Advance 100] 3%nat _ H eq_refl).
Defined.
